(** * migrate_registry.py: the registry-migration rewriter

    A shallow embedding of [scripts/migrate_registry.py].  The script
    applies four [re.sub] passes to the text of a C source file.  The
    development therefore has three layers:

    - the fragment of Python's [re] engine the four patterns use
      (literals, greedy one-or-more over a character class, greedy
      optional groups, capture groups, replacement templates with
      back-references, and the left-to-right non-overlapping scan of
      [re.sub]);
    - the four patterns and replacements and [migrate_endpoint] itself;
    - the command-line entry point over an explicit file system and
      output trace. *)

From Stdlib Require Import String Ascii NArith Arith Bool List Lia.
Import ListNotations.

(** ** Text *)

(** A Python [str] is a sequence of Unicode code points. *)
Definition char := N.
Definition text := list char.

(** An ASCII literal of the source, as code points. *)
Fixpoint str (s : string) : text :=
  match s with
  | EmptyString => []
  | String a s' => N_of_ascii a :: str s'
  end.

Definition dq : char := 34%N.   (* the double quote *)
Definition nl : char := 10%N.   (* the line feed *)
Definition sp : char := 32%N.   (* the space *)

(** [\s] on a [str] pattern: the Unicode white space of CPython
    ([Py_UNICODE_ISSPACE]). *)
Definition is_space (c : char) : bool :=
  ((9 <=? c) && (c <=? 13) || (28 <=? c) && (c <=? 32)
   || (c =? 133) || (c =? 160) || (c =? 5760)
   || (8192 <=? c) && (c <=? 8202)
   || (c =? 8232) || (c =? 8233) || (c =? 8239) || (c =? 8287)
   || (c =? 12288))%N.

(** A negated one-character class: every character but [x]. *)
Definition is_not (x : char) (c : char) : bool := negb (c =? x)%N.

(** ** The regular-expression fragment *)

Inductive regex : Type :=
| Lit (l : text)                 (* a run of literal characters *)
| Plus (p : char -> bool)        (* greedy [+] over a character class *)
| Group (n : nat) (r : regex)    (* capture group number [n] *)
| Opt (r : regex)                (* greedy [?] *)
| Seq (r1 r2 : regex).           (* concatenation *)

Declare Scope regex_scope.
Delimit Scope regex_scope with re.
Bind Scope regex_scope with regex.
Infix ";;" := Seq (at level 61, right associativity) : regex_scope.

(** Captured groups, most recently closed first. *)
Definition captures := list (nat * text).

Definition set_group (n : nat) (v : text) (caps : captures) : captures :=
  (n, v) :: caps.

Fixpoint group (n : nat) (caps : captures) : option text :=
  match caps with
  | [] => None
  | (m, v) :: caps' => if Nat.eqb m n then Some v else group n caps'
  end.

(** A match leaves the unread rest of the subject and the captures. *)
Definition result := (text * captures)%type.
Definition cont := text -> captures -> option result.

Fixpoint strip_prefix (l s : text) : option text :=
  match l, s with
  | [], _ => Some s
  | _ :: _, [] => None
  | a :: l', c :: s' => if (a =? c)%N then strip_prefix l' s' else None
  end.

(** Greedy repetition: the longest run is tried first, and the engine
    gives characters back one at a time while the continuation fails. *)
Fixpoint star (p : char -> bool) (s : text) (k : text -> option result)
  : option result :=
  match s with
  | c :: s' =>
      if p c then
        match star p s' k with
        | Some x => Some x
        | None => k s
        end
      else k s
  | [] => k []
  end.

Definition plus (p : char -> bool) (s : text) (k : text -> option result)
  : option result :=
  match s with
  | c :: s' => if p c then star p s' k else None
  | [] => None
  end.

(** The backtracking matcher, in continuation-passing style: [rmatch r s
    caps k] matches [r] at the head of [s] and hands the rest to [k];
    alternatives are tried in the engine's priority order. *)
Fixpoint rmatch (r : regex) (s : text) (caps : captures) (k : cont)
  : option result :=
  match r with
  | Lit l =>
      match strip_prefix l s with
      | Some s' => k s' caps
      | None => None
      end
  | Plus p => plus p s (fun s' => k s' caps)
  | Group n r' =>
      rmatch r' s caps
        (fun s' caps' =>
           k s' (set_group n (firstn (length s - length s') s) caps'))
  | Opt r' =>
      match rmatch r' s caps k with
      | Some x => Some x
      | None => k s caps
      end
  | Seq r1 r2 => rmatch r1 s caps (fun s' caps' => rmatch r2 s' caps' k)
  end.

(** The top-level continuation.  [must_advance] is the engine's flag that
    refuses an empty match right after an empty match. *)
Definition accept (must_advance : bool) (s0 : text) : cont :=
  fun s caps =>
    if must_advance && Nat.eqb (length s) (length s0) then None
    else Some (s, caps).

Definition match_at (r : regex) (must_advance : bool) (s : text)
  : option result :=
  rmatch r s [] (accept must_advance s).

(** ** Replacement templates *)

Inductive titem : Type :=
| TLit (l : text)      (* literal text *)
| TRef (n : nat).      (* back-reference [\n] *)

Definition template := list titem.

(** A group that took no part in the match expands to the empty string. *)
Definition expand_item (caps : captures) (i : titem) : text :=
  match i with
  | TLit l => l
  | TRef n => match group n caps with Some v => v | None => [] end
  end.

Definition expand (t : template) (caps : captures) : text :=
  flat_map (expand_item caps) t.

(** ** [re.sub] *)

(** The scan of [re.sub]: at each position outside a previous match the
    pattern is tried; a match is replaced by the expanded template and the
    scan resumes after it ([skip] counts the matched characters still to
    pass over); otherwise the character is copied. *)
Fixpoint sub_go (r : regex) (t : template) (s : text) (skip : nat)
  {struct s} : text :=
  match skip with
  | S n =>
      match s with
      | [] => []
      | _ :: s' => sub_go r t s' n
      end
  | O =>
      match match_at r false s with
      | Some (rest, caps) =>
          match length s - length rest with
          | S n =>
              expand t caps ++
              match s with
              | [] => []
              | _ :: s' => sub_go r t s' n
              end
          | O =>
              expand t caps ++
              match match_at r true s with
              | Some (rest2, caps2) =>
                  expand t caps2 ++
                  match s with
                  | [] => []
                  | _ :: s' =>
                      sub_go r t s' (length s - length rest2 - 1)
                  end
              | None =>
                  match s with
                  | [] => []
                  | c :: s' => c :: sub_go r t s' 0
                  end
              end
          end
      | None =>
          match s with
          | [] => []
          | c :: s' => c :: sub_go r t s' 0
          end
      end
  end.

Definition sub (r : regex) (t : template) (s : text) : text :=
  sub_go r t s 0.

(** ** The four rules of [migrate_endpoint] *)

Definition lit_load_comment : text := str "/* Load registry */".
Definition lit_create : text :=
  str "workflow_registry_t* registry = workflow_registry_create(" ++ [dq].
Definition lit_create_end : text := dq :: str ");".

Definition pattern1 : regex :=
  (Opt (Group 1 (Lit lit_load_comment ;; Plus is_space)) ;;
   Lit lit_create ;; Plus (is_not dq) ;; Lit lit_create_end)%re.

Definition line_use_shared : text :=
  str "/* Use shared registry with mutex protection */".
Definition line_lock : text :=
  str "pthread_mutex_lock(&g_api_daemon->workflow_registry_lock);".
Definition line_reassign : text :=
  str "workflow_registry_t* registry = g_api_daemon->workflow_registry;".
Definition indent4 : text := [sp; sp; sp; sp].

Definition replacement1_text : text :=
  line_use_shared ++ [nl] ++
  indent4 ++ line_lock ++ [nl] ++
  [nl] ++
  indent4 ++ line_reassign.

Definition replacement1 : template := [TLit replacement1_text].

Definition lit_if_null : text := str "if (!registry) {".
Definition lit_failed : text :=
  str "http_response_set_error(resp, HTTP_STATUS_SERVER_ERROR, " ++
  [dq] ++ str "Failed to create registry" ++ [dq] ++ str ");".
Definition lit_return_memory : text := str "return E_SYSTEM_MEMORY;".
Definition lit_close : text := str "}".

Definition pattern2 : regex :=
  (Lit lit_if_null ;; Group 1 (Plus is_space) ;;
   Lit lit_failed ;; Group 2 (Plus is_space) ;;
   Lit lit_return_memory ;; Group 3 (Plus is_space) ;;
   Lit lit_close)%re.

Definition lit_unlock : text :=
  str "pthread_mutex_unlock(&g_api_daemon->workflow_registry_lock);".
Definition lit_not_initialized : text :=
  str "http_response_set_error(resp, HTTP_STATUS_SERVER_ERROR, " ++
  [dq] ++ str "Registry not initialized" ++ [dq] ++ str ");".
Definition lit_return_state : text := str "return E_INVALID_STATE;".

Definition replacement2 : template :=
  [TLit lit_if_null; TRef 1; TLit lit_unlock;
   TRef 1; TLit lit_not_initialized;
   TRef 1; TLit lit_return_state;
   TRef 3; TLit lit_close].

Definition lit_load : text :=
  str "int result = workflow_registry_load(registry);".
Definition lit_if_result : text :=
  str "if (result != ARGO_SUCCESS && result != E_SYSTEM_FILE) {".
Definition lit_destroy : text := str "workflow_registry_destroy(registry);".
Definition lit_set_error : text := str "http_response_set_error(".
Definition lit_call_end : text := str ");".
Definition lit_return_result : text := str "return result;".
Definition lit_cleanup_comment : text :=
  str "/* Cleanup dead workflows after loading */".
Definition lit_cleanup : text :=
  str "workflow_registry_cleanup_dead_workflows(registry);".
Definition rparen : char := 41%N.

Definition pattern3 : regex :=
  (Lit lit_load ;; Group 1 (Plus is_space) ;;
   Lit lit_if_result ;; Group 2 (Plus is_space) ;;
   Lit lit_destroy ;; Group 3 (Plus is_space) ;;
   Lit lit_set_error ;; Plus (is_not rparen) ;; Lit lit_call_end ;;
   Group 4 (Plus is_space) ;;
   Lit lit_return_result ;; Group 5 (Plus is_space) ;;
   Lit lit_close ;; Group 6 (Plus is_space) ;;
   Opt (Group 7 (Lit lit_cleanup_comment)) ;;
   Group 8 (Plus is_space) ;;
   Opt (Group 9 (Lit lit_cleanup)))%re.

Definition replacement3 : template := [].

Definition pattern4 : regex := Lit lit_destroy.
Definition replacement4 : template := [TLit lit_unlock].

Definition migrate_endpoint (content : text) : text :=
  let content := sub pattern1 replacement1 content in
  let content := sub pattern2 replacement2 content in
  let content := sub pattern3 replacement3 content in
  let content := sub pattern4 replacement4 content in
  content.

(** Lines joined by line feeds, as the documents below are written. *)
Fixpoint unlines (ls : list text) : text :=
  match ls with
  | [] => []
  | [l] => l
  | l :: ls' => l ++ nl :: unlines ls'
  end.

Definition minimal_document : text :=
  unlines
    [ str "workflow_registry_t* registry = workflow_registry_create(" ++
        [dq] ++ str "path" ++ [dq] ++ str ");";
      str "if (!registry) {";
      str "    http_response_set_error(resp, HTTP_STATUS_SERVER_ERROR, " ++
        [dq] ++ str "Failed to create registry" ++ [dq] ++ str ");";
      str "    return E_SYSTEM_MEMORY;";
      str "}";
      str "workflow_registry_destroy(registry);" ].

Definition minimal_document_migrated : text :=
  unlines
    [ str "/* Use shared registry with mutex protection */";
      str "    pthread_mutex_lock(&g_api_daemon->workflow_registry_lock);";
      [];
      str "    workflow_registry_t* registry = g_api_daemon->workflow_registry;";
      str "if (!registry) {";
      str "    pthread_mutex_unlock(&g_api_daemon->workflow_registry_lock);";
      str "    http_response_set_error(resp, HTTP_STATUS_SERVER_ERROR, " ++
        [dq] ++ str "Registry not initialized" ++ [dq] ++ str ");";
      str "    return E_INVALID_STATE;";
      str "}";
      str "pthread_mutex_unlock(&g_api_daemon->workflow_registry_lock);" ].

(** ** Where a pattern occurs *)

(** [occurs r s]: the pattern matches at some position of [s]. *)
Fixpoint occurs (r : regex) (s : text) : bool :=
  match match_at r false s with
  | Some _ => true
  | None =>
      match s with
      | [] => false
      | _ :: s' => occurs r s'
      end
  end.

(** The next character, if any, is outside the class. *)
Definition stops (p : char -> bool) (s : text) : bool :=
  match s with
  | [] => true
  | c :: _ => negb (p c)
  end.

(** ** Documents free of the target patterns *)

(** None of the four target patterns occurs in [s]. *)
Definition no_target (s : text) : bool :=
  negb (occurs pattern1 s) && negb (occurs pattern2 s) &&
  negb (occurs pattern3 s) && negb (occurs pattern4 s).

Definition plain_document : text :=
  unlines [ str "int main(void) {"; str "    return 0;"; str "}" ].

(** A document that has already been migrated: it holds Rule D's
    replacement text and none of the original patterns. *)
Definition migrated_document : text :=
  unlines [ str "    free(buf);"; indent4 ++ lit_unlock; str "    return 0;" ].

(** ** Rule A: the registry declaration *)

(** The declaration Rule A looks for, with [arg] between the quotes. *)
Definition declaration (arg : text) : text :=
  lit_create ++ arg ++ lit_create_end.

(** ** Rule B: the null-check block *)

(** What [\s+] matches in full: a non-empty run of white space. *)
Definition blank (ws : text) : bool :=
  match ws with
  | [] => false
  | _ :: _ => forallb is_space ws
  end.

(** The block Rule B looks for, with its three spans of white space. *)
Definition null_check (ws1 ws2 ws3 : text) : text :=
  lit_if_null ++ ws1 ++ lit_failed ++ ws2 ++ lit_return_memory ++
  ws3 ++ lit_close.

(** The layout of the rewritten block: white space before the unlock call,
    before the error report, before the return and before the brace. *)
Definition null_check_rewritten (a b c d : text) : text :=
  lit_if_null ++ a ++ lit_unlock ++ b ++ lit_not_initialized ++
  c ++ lit_return_state ++ d ++ lit_close.

Definition span4 : text := nl :: repeat sp 4.
Definition span8 : text := nl :: repeat sp 8.

(** ** Rule C: the load block *)

(** The statements of the load block up to its closing brace. *)
Definition load_block (ws1 ws2 ws3 args ws4 ws5 : text) : text :=
  lit_load ++ ws1 ++ lit_if_result ++ ws2 ++ lit_destroy ++ ws3 ++
  lit_set_error ++ args ++ lit_call_end ++ ws4 ++ lit_return_result ++
  ws5 ++ lit_close.

(** The load block with both optional parts present. *)
Definition full_load_block (ws1 ws2 ws3 args ws4 ws5 ws6 ws7 : text) : text :=
  load_block ws1 ws2 ws3 args ws4 ws5 ++
  ws6 ++ lit_cleanup_comment ++ ws7 ++ lit_cleanup.

(** What [[^)]+] matches in full. *)
Definition call_args (args : text) : bool :=
  match args with
  | [] => false
  | _ :: _ => forallb (is_not rparen) args
  end.

Definition pattern3_tail : regex :=
  (Group 6 (Plus is_space) ;;
   Opt (Group 7 (Lit lit_cleanup_comment)) ;;
   Group 8 (Plus is_space) ;;
   Opt (Group 9 (Lit lit_cleanup)))%re.

Definition load_block_captures (ws1 ws2 ws3 ws4 ws5 : text) : captures :=
  [(5, ws5); (4, ws4); (3, ws3); (2, ws2); (1, ws1)].

Definition full_load_block_captures
  (ws1 ws2 ws3 ws4 ws5 ws6 ws7 : text) : captures :=
  (9, lit_cleanup) :: (8, ws7) :: (7, lit_cleanup_comment) :: (6, ws6) ::
  load_block_captures ws1 ws2 ws3 ws4 ws5.

(** [starts_in r pre s]: in the text [pre ++ s] the pattern matches at some
    position inside [pre]. *)
Fixpoint starts_in (r : regex) (pre s : text) : bool :=
  match pre with
  | [] => false
  | c :: pre' =>
      match match_at r false (pre ++ s) with
      | Some _ => true
      | None => starts_in r pre' s
      end
  end.

Definition sample_args : text :=
  str "resp, HTTP_STATUS_SERVER_ERROR, " ++
  [dq] ++ str "Failed to load registry" ++ [dq].
Definition sample_pre : text := unlines [ str "int handler(void) {"; indent4 ].
Definition sample_suf : text :=
  unlines [ []; []; str "    return ARGO_SUCCESS;"; str "}" ].

(** Neither optional part follows: the text after the white space starts
    with neither the cleanup comment nor the cleanup call. *)
Definition no_optional_part (rest : text) : bool :=
  match strip_prefix lit_cleanup_comment rest,
        strip_prefix lit_cleanup rest with
  | None, None => true
  | _, _ => false
  end.

(** ** Texts in which a pattern cannot start *)

(** [never r t]: the pattern fails at the head of [t], whatever follows it
    in the enclosing pattern. *)
Definition never (r : regex) (t : text) : Prop :=
  forall caps k, rmatch r t caps k = None.

(** [clear r pre x]: in [pre ++ x] the pattern starts nowhere inside
    [pre]. *)
Definition clear (r : regex) (pre x : text) : Prop :=
  forall a b, pre = a ++ b -> b <> [] -> never r (b ++ x).

(** The literal and the subject differ at a position both have. *)
Fixpoint mismatch (l b : text) : bool :=
  match l, b with
  | x :: l', y :: b' => if (x =? y)%N then mismatch l' b' else true
  | _, _ => false
  end.

(** Every non-empty suffix of [s] differs from the literal. *)
Fixpoint borderless (l s : text) : bool :=
  match s with
  | [] => true
  | _ :: s' => mismatch l s && borderless l s'
  end.

(** ** Matches that end before a given text *)

(** The result of a match on [b], read on [b ++ x]. *)
Definition shift (x : text) (o : option result) : option result :=
  match o with
  | Some (rest, caps) => Some (rest ++ x, caps)
  | None => None
  end.

(** [frame r x]: before [x] the pattern matches as if the text ended
    there, so no match that starts before [x] reaches into it. *)
Definition frame (r : regex) (x : text) : Prop :=
  forall b caps (K k : cont),
    (forall t c, K (t ++ x) c = shift x (k t c)) ->
    rmatch r (b ++ x) caps K = shift x (rmatch r b caps k).

(** No non-empty end of the literal [l] starts the text [x]. *)
Definition apart (l x : text) : Prop :=
  forall l1 l2, l = l1 ++ l2 -> l2 <> [] -> strip_prefix l2 x = None.

(** [s.startswith(l)] and [s.endswith(l)]. *)
Definition starts_with (l s : text) : bool :=
  match strip_prefix l s with
  | Some _ => true
  | None => false
  end.

Definition ends_with (l s : text) : bool := starts_with (rev l) (rev s).

(** ** The variable name *)

(** The characters of a C identifier. *)
Definition is_ident (c : char) : bool :=
  ((48 <=? c) && (c <=? 57) || (65 <=? c) && (c <=? 90)
   || (97 <=? c) && (c <=? 122) || (c =? 95))%N.

Definition registry_name : text := str "registry".

(** The four constructs with the variable spelled [v]. *)
Definition declaration_of (v arg : text) : text :=
  str "workflow_registry_t* " ++ v ++
  str " = workflow_registry_create(" ++ [dq] ++ arg ++ lit_create_end.

Definition null_check_of (v ws1 ws2 ws3 : text) : text :=
  str "if (!" ++ v ++ str ") {" ++ ws1 ++ lit_failed ++ ws2 ++
  lit_return_memory ++ ws3 ++ lit_close.

Definition destroy_call (v : text) : text :=
  str "workflow_registry_destroy(" ++ v ++ str ");".

Definition load_block_of (v ws1 ws2 ws3 args ws4 ws5 : text) : text :=
  str "int result = workflow_registry_load(" ++ v ++ str ");" ++ ws1 ++
  lit_if_result ++ ws2 ++ destroy_call v ++ ws3 ++
  lit_set_error ++ args ++ lit_call_end ++ ws4 ++ lit_return_result ++
  ws5 ++ lit_close.

(** Rule A's pattern after its optional comment group. *)
Definition create_rule : regex :=
  (Lit lit_create ;; Plus (is_not dq) ;; Lit lit_create_end)%re.

(** The text of Rule A's pattern up to the opening quote. *)
Definition lit_create_open : text :=
  str "workflow_registry_t* registry = workflow_registry_create(".

Definition other_name : text := str "reg".

Definition sample_rest : text := str "return ARGO_SUCCESS;".

(** * The command line *)

(** The script's only effects are on the file named on the command line
    and on standard output.  A file holds the text that the text layer
    hands to the program; the state records which files can be opened for
    reading (those with a content) and which for writing, the lines
    printed, and the file operations performed, in order. *)

Definition path := text.

Inductive file_op : Type :=
| OpRead (p : path)
| OpWrite (p : path) (content : text).

Record state : Type := State {
  files : path -> option text;
  writable : path -> bool;
  stdout : list text;
  file_ops : list file_op
}.

Inductive exn : Type :=
| IndexError
| OSError (p : path).

(** A step returns a value, leaves through [sys.exit], or raises. *)
Inductive res (A : Type) : Type :=
| Val (a : A)
| Exit (status : nat)
| Raise (e : exn).
Arguments Val {A} a.
Arguments Exit {A} status.
Arguments Raise {A} e.

Definition M (A : Type) : Type := state -> res A * state.

Definition ret {A} (a : A) : M A := fun st => (Val a, st).

Definition bind {A B} (m : M A) (f : A -> M B) : M B :=
  fun st =>
    match m st with
    | (Val a, st') => f a st'
    | (Exit n, st') => (Exit n, st')
    | (Raise e, st') => (Raise e, st')
    end.

Declare Scope io_scope.
Delimit Scope io_scope with io.
Notation "x <- m ;; k" := (bind m (fun x => k))
  (at level 61, m at next level, right associativity) : io_scope.
Notation "m ;; k" := (bind m (fun _ => k))
  (at level 61, right associativity) : io_scope.

Fixpoint text_eqb (a b : text) : bool :=
  match a, b with
  | [], [] => true
  | x :: a', y :: b' => (x =? y)%N && text_eqb a' b'
  | _, _ => false
  end.

Definition update (fs : path -> option text) (p : path) (content : text)
  : path -> option text :=
  fun q => if text_eqb q p then Some content else fs q.

(** [print(line)] *)
Definition print (line : text) : M unit :=
  fun st =>
    (Val tt, State (files st) (writable st) (stdout st ++ [line])
               (file_ops st)).

(** [sys.exit(status)] *)
Definition sys_exit {A} (status : nat) : M A := fun st => (Exit status, st).

(** [l[i]] *)
Definition index (l : list text) (i : nat) : M text :=
  fun st =>
    match nth_error l i with
    | Some x => (Val x, st)
    | None => (Raise IndexError, st)
    end.

(** [with open(p, 'r') as f: content = f.read()] *)
Definition read_file (p : path) : M text :=
  fun st =>
    match files st p with
    | Some content =>
        (Val content,
         State (files st) (writable st) (stdout st)
           (file_ops st ++ [OpRead p]))
    | None => (Raise (OSError p), st)
    end.

(** [with open(p, 'w') as f: f.write(content)] *)
Definition write_file (p : path) (content : text) : M unit :=
  fun st =>
    if writable st p then
      (Val tt,
       State (update (files st) p content) (writable st) (stdout st)
         (file_ops st ++ [OpWrite p content]))
    else (Raise (OSError p), st).

Definition usage_line (prog : text) : text :=
  str "Usage: " ++ prog ++ str " <file>".

Definition migrated_line (filepath : path) : text :=
  str "Migrated " ++ filepath.

(** The body under [if __name__ == '__main__'], over [sys.argv]. *)
Definition main (argv : list text) : M unit :=
  (if negb (Nat.eqb (length argv) 2) then
     prog <- index argv 0 ;;
     print (usage_line prog) ;;
     sys_exit 1
   else
     filepath <- index argv 1 ;;
     content <- read_file filepath ;;
     let migrated := migrate_endpoint content in
     write_file filepath migrated ;;
     print (migrated_line filepath))%io.

(** The status the process ends with: 0 at the end of the script, the
    argument of [sys.exit], and 1 after an uncaught exception. *)
Definition exit_status {A} (r : res A) : nat :=
  match r with
  | Val _ => 0
  | Exit n => n
  | Raise _ => 1
  end.

Definition sample_path : path := str "api_http.c".

Definition sample_state : state :=
  State (fun q => if text_eqb q sample_path then Some minimal_document
                  else None)
        (fun _ => true) [] [].

(** ** The end of Rule C's pattern *)

(** Rule C's pattern after the white space that follows the brace. *)
Definition pattern3_after_run : regex :=
  (Opt (Group 7 (Lit lit_cleanup_comment)) ;;
   Group 8 (Plus is_space) ;;
   Opt (Group 9 (Lit lit_cleanup)))%re.

(** The cleanup comment cannot take part in a match: it does not follow,
    or no white space follows it. *)
Definition comment_unusable (rest : text) : bool :=
  match strip_prefix lit_cleanup_comment rest with
  | None => true
  | Some u => stops is_space u
  end.

Definition semicolon : char := 59%N.

(** ** A whole endpoint *)

(** The three constructs of an endpoint in a row: the declaration, the
    null check and the destroy call, with white space between them. *)
Definition endpoint (arg ws0 ws1 ws2 ws3 ws4 : text) : text :=
  declaration arg ++ ws0 ++ null_check ws1 ws2 ws3 ++ ws4 ++ lit_destroy.

Definition endpoint_migrated (ws0 ws1 ws3 ws4 : text) : text :=
  replacement1_text ++ ws0 ++ null_check_rewritten ws1 ws1 ws1 ws3 ++
  ws4 ++ lit_unlock.

(** ** A literal rule *)

(** A pass of [re.sub] whose pattern and replacement are both literal
    texts, as Rule D is. *)
Definition literal_sub (L R : text) : text -> text := sub (Lit L) [TLit R].

(** ** Sample data *)

Definition nested_call_args : text := str "resp, 500, strerror(errno".

(** A registry declaration up to its closing quote, as the argument list
    of the error report. *)
Definition declaration_as_arguments : text :=
  lit_create ++ str "x" ++ [dq].

Definition block_with_declaration : text :=
  full_load_block span4 span8 span8 declaration_as_arguments span8 span4
    [nl; nl] span4.

(** That block once Rule A has rewritten the declaration in its argument
    list and Rule D its destroy call. *)
Definition block_with_declaration_migrated : text :=
  lit_load ++ span4 ++ lit_if_result ++ span8 ++ lit_unlock ++ span8 ++
  lit_set_error ++ replacement1_text ++ span8 ++ lit_return_result ++
  span4 ++ lit_close ++ [nl; nl] ++ lit_cleanup_comment ++ span4 ++
  lit_cleanup.

(** A call on the next line whose string argument is the text [);]. *)
Definition puts_call_end : text :=
  nl :: str "puts(" ++ [dq] ++ str ");" ++ [dq] ++ str ");".

(** A call on the line before whose string argument is the opening text
    of Rule A. *)
Definition puts_create_open : text :=
  str "puts(" ++ [dq] ++ lit_create_open ++ [dq] ++ str ");" ++ [nl].

Definition plain_state : state :=
  State (fun q => if text_eqb q sample_path then Some plain_document
                  else None)
        (fun _ => true) [] [].

Definition missing_path : path := str "missing.c".

Definition read_only_state : state :=
  State (files sample_state) (fun _ => false) [] [].

(** * The end-to-end document *)

(** C1. The minimal end-to-end document: line 1 becomes the lock and
    reassign block of Rule A, the body of the null check becomes the
    unlock call, the message "Registry not initialized" and the return of
    E_INVALID_STATE, and the final destroy call becomes an unlock call. *)
Theorem migrate_minimal_document :
  migrate_endpoint minimal_document = minimal_document_migrated.
Proof. vm_compute. reflexivity. Qed.

(** * Properties of the engine *)

Section Engine.

Lemma strip_prefix_app (l s : text) : strip_prefix l (l ++ s) = Some s.
Proof.
  induction l as [|a l IH]; simpl; [reflexivity|].
  rewrite N.eqb_refl. exact IH.
Qed.

Lemma strip_prefix_Some (l s rest : text) :
  strip_prefix l s = Some rest -> s = l ++ rest.
Proof.
  revert s. induction l as [|a l IH]; intros s H; simpl in *.
  - congruence.
  - destruct s as [|c s]; [discriminate|].
    destruct (N.eqb_spec a c) as [->|]; [|discriminate].
    f_equal. apply IH. exact H.
Qed.

Lemma star_stops p s k : stops p s = true -> star p s k = k s.
Proof.
  destruct s as [|c s]; simpl; [reflexivity|].
  intros H. apply negb_true_iff in H. rewrite H. reflexivity.
Qed.

(** Greedy success: the whole run is taken when the continuation accepts
    right after it. *)
Lemma star_greedy p ws s k x :
  forallb p ws = true -> stops p s = true -> k s = Some x ->
  star p (ws ++ s) k = Some x.
Proof.
  intros Hws Hs Hk. induction ws as [|w ws IH]; simpl in *.
  - rewrite star_stops; assumption.
  - apply andb_true_iff in Hws as [Hw Hws]. rewrite Hw, (IH Hws).
    reflexivity.
Qed.

(** Every way of giving characters back fails. *)
Lemma star_none p ws s k :
  forallb p ws = true -> stops p s = true ->
  (forall a b, ws = a ++ b -> k (b ++ s) = None) ->
  star p (ws ++ s) k = None.
Proof.
  intros Hws Hs. induction ws as [|w ws IH]; intros Hk; simpl in *.
  - rewrite star_stops by assumption. apply (Hk [] []). reflexivity.
  - apply andb_true_iff in Hws as [Hw Hws]. rewrite Hw, IH; trivial.
    + apply (Hk [] (w :: ws)). reflexivity.
    + intros a b ->. apply (Hk (w :: a) b). reflexivity.
Qed.

(** One character given back: the continuation refuses the full run and
    accepts once the last character of the run is returned. *)
Lemma star_give_back p ws w s k x :
  forallb p ws = true -> p w = true -> stops p s = true ->
  k s = None -> k (w :: s) = Some x ->
  star p (ws ++ w :: s) k = Some x.
Proof.
  intros Hws Hw Hs Hk0 Hk1. induction ws as [|a ws IH]; simpl in *.
  - rewrite Hw, star_stops, Hk0 by assumption. exact Hk1.
  - apply andb_true_iff in Hws as [Ha Hws]. rewrite Ha, (IH Hws).
    reflexivity.
Qed.

Lemma plus_greedy p ws s k x :
  ws <> [] -> forallb p ws = true -> stops p s = true -> k s = Some x ->
  plus p (ws ++ s) k = Some x.
Proof.
  intros Hne Hws Hs Hk. destruct ws as [|w ws]; [congruence|].
  simpl in *. apply andb_true_iff in Hws as [Hw Hws]. rewrite Hw.
  apply star_greedy; assumption.
Qed.

Lemma plus_none p ws s k :
  forallb p ws = true -> stops p s = true ->
  (forall a b, a <> [] -> ws = a ++ b -> k (b ++ s) = None) ->
  plus p (ws ++ s) k = None.
Proof.
  intros Hws Hs Hk. destruct ws as [|w ws]; simpl in *.
  - destruct s as [|c s]; simpl in *; [reflexivity|].
    apply negb_true_iff in Hs. rewrite Hs. reflexivity.
  - apply andb_true_iff in Hws as [Hw Hws]. rewrite Hw.
    apply star_none; trivial.
    intros a b ->. apply (Hk (w :: a) b); [discriminate | reflexivity].
Qed.

Lemma firstn_matched (m s : text) :
  firstn (length (m ++ s) - length s) (m ++ s) = m.
Proof.
  rewrite length_app, Nat.add_sub. rewrite firstn_app, Nat.sub_diag.
  rewrite firstn_all. simpl. apply app_nil_r.
Qed.

(** Stepping lemmas for patterns written as right-nested sequences. *)

Lemma rmatch_lit l r s caps k :
  rmatch (Lit l ;; r) (l ++ s) caps k = rmatch r s caps k.
Proof. simpl. rewrite strip_prefix_app. reflexivity. Qed.

Lemma rmatch_lit_end l s caps k :
  rmatch (Lit l) (l ++ s) caps k = k s caps.
Proof. simpl. rewrite strip_prefix_app. reflexivity. Qed.

Lemma rmatch_lit_fail l r s caps k :
  strip_prefix l s = None -> rmatch (Lit l ;; r) s caps k = None.
Proof. intros H. simpl. rewrite H. reflexivity. Qed.

Lemma rmatch_plus_greedy p r ws s caps k x :
  ws <> [] -> forallb p ws = true -> stops p s = true ->
  rmatch r s caps k = Some x ->
  rmatch (Plus p ;; r) (ws ++ s) caps k = Some x.
Proof. intros. simpl. apply plus_greedy; assumption. Qed.

Lemma rmatch_group_greedy n p r ws s caps k x :
  ws <> [] -> forallb p ws = true -> stops p s = true ->
  rmatch r s (set_group n ws caps) k = Some x ->
  rmatch (Group n (Plus p) ;; r) (ws ++ s) caps k = Some x.
Proof.
  intros. simpl. apply plus_greedy; trivial.
  rewrite firstn_matched. assumption.
Qed.

Lemma rmatch_group_end_greedy n p ws s caps k x :
  ws <> [] -> forallb p ws = true -> stops p s = true ->
  k s (set_group n ws caps) = Some x ->
  rmatch (Group n (Plus p)) (ws ++ s) caps k = Some x.
Proof.
  intros. simpl. apply plus_greedy; trivial.
  rewrite firstn_matched. assumption.
Qed.

End Engine.

(** * Properties of [re.sub] *)

Section Sub.

Variables (r : regex) (t : template).

Lemma sub_go_skip (m s : text) :
  sub_go r t (m ++ s) (length m) = sub_go r t s 0.
Proof.
  induction m as [|c m IH]; [reflexivity|]. simpl. exact IH.
Qed.

(** No match here: the character is copied. *)
Lemma sub_no_match c s :
  match_at r false (c :: s) = None -> sub r t (c :: s) = c :: sub r t s.
Proof. intros H. unfold sub. simpl. rewrite H. reflexivity. Qed.

Lemma sub_nil : match_at r false [] = None -> sub r t [] = [].
Proof. intros H. unfold sub. simpl. rewrite H. reflexivity. Qed.

(** A non-empty match here: it is replaced and the scan resumes after it. *)
Lemma sub_match (m s : text) caps :
  m <> [] -> match_at r false (m ++ s) = Some (s, caps) ->
  sub r t (m ++ s) = expand t caps ++ sub r t s.
Proof.
  intros Hne H. destruct m as [|c m]; [congruence|].
  change ((c :: m) ++ s) with (c :: m ++ s) in *.
  unfold sub. cbn [sub_go]. rewrite H.
  replace (length (c :: m ++ s) - length s) with (S (length m)).
  - rewrite sub_go_skip. reflexivity.
  - cbn [length]. rewrite length_app. lia.
Qed.

(** No match starts inside [pre]: it is copied unchanged. *)
Lemma sub_prefix (pre s : text) :
  (forall a b, pre = a ++ b -> b <> [] ->
               match_at r false (b ++ s) = None) ->
  sub r t (pre ++ s) = pre ++ sub r t s.
Proof.
  induction pre as [|c pre IH]; intros H; [reflexivity|].
  simpl app. rewrite sub_no_match.
  - f_equal. apply IH. intros a b -> Hb. apply (H (c :: a) b); trivial.
  - apply (H [] (c :: pre)); [reflexivity | discriminate].
Qed.

Lemma occurs_false_here s : occurs r s = false -> match_at r false s = None.
Proof.
  destruct s; simpl; destruct (match_at r false _); congruence.
Qed.

(** A rule whose pattern occurs nowhere is a no-op. *)
Lemma sub_no_occurrence s : occurs r s = false -> sub r t s = s.
Proof.
  induction s as [|c s IH]; intros H.
  - apply sub_nil. apply occurs_false_here. exact H.
  - rewrite sub_no_match.
    + f_equal. apply IH. simpl in H.
      destruct (match_at r false (c :: s)); [discriminate | exact H].
    + apply occurs_false_here. exact H.
Qed.

End Sub.

(** * Inputs without any target pattern *)

Lemma migrate_no_target s : no_target s = true -> migrate_endpoint s = s.
Proof.
  unfold no_target. intros H.
  apply andb_true_iff in H as [H H4].
  apply andb_true_iff in H as [H H3].
  apply andb_true_iff in H as [H1 H2].
  apply negb_true_iff in H1, H2, H3, H4.
  unfold migrate_endpoint.
  rewrite (sub_no_occurrence pattern1 replacement1 s H1).
  rewrite (sub_no_occurrence pattern2 replacement2 s H2).
  rewrite (sub_no_occurrence pattern3 replacement3 s H3).
  apply sub_no_occurrence. exact H4.
Qed.

(** C2. An input in which none of the four target patterns occurs is
    returned unchanged. *)
Theorem migrate_identity_without_patterns (content : text) :
  no_target content = true -> migrate_endpoint content = content.
Proof. apply migrate_no_target. Qed.

Lemma migrate_identity_without_patterns_witness :
  no_target plain_document = true /\
  migrate_endpoint plain_document = plain_document.
Proof.
  split.
  - vm_compute. reflexivity.
  - apply (migrate_identity_without_patterns plain_document).
    vm_compute. reflexivity.
Defined.

(** C3. On an already-migrated document (none of the four original
    patterns occurs in it) a second run changes nothing more:
    rewrite (rewrite text) = rewrite text. *)
Theorem migrate_idempotent_on_migrated (content : text) :
  no_target content = true ->
  migrate_endpoint (migrate_endpoint content) = migrate_endpoint content.
Proof.
  intros H. rewrite (migrate_no_target content H).
  apply migrate_no_target. exact H.
Qed.

Lemma migrate_idempotent_on_migrated_witness :
  no_target migrated_document = true /\
  migrate_endpoint (migrate_endpoint migrated_document) =
  migrate_endpoint migrated_document.
Proof.
  split.
  - vm_compute. reflexivity.
  - apply (migrate_idempotent_on_migrated migrated_document).
    vm_compute. reflexivity.
Defined.

(** * Rule A *)

Lemma rmatch_opt_skip g r s caps k :
  rmatch g s caps (fun s' caps' => rmatch r s' caps' k) = None ->
  rmatch (Opt g ;; r) s caps k = rmatch r s caps k.
Proof. intros H. cbn [rmatch]. rewrite H. reflexivity. Qed.

Lemma rmatch_group_lit_fail n l r s caps k :
  strip_prefix l s = None -> rmatch (Group n (Lit l ;; r)) s caps k = None.
Proof. intros H. cbn [rmatch]. rewrite H. reflexivity. Qed.

Lemma pattern1_matches arg s :
  arg <> [] -> forallb (is_not dq) arg = true ->
  match_at pattern1 false (declaration arg ++ s) = Some (s, []).
Proof.
  intros Hne Harg. unfold match_at, pattern1, declaration.
  rewrite <- !app_assoc.
  rewrite rmatch_opt_skip
    by (apply rmatch_group_lit_fail; reflexivity).
  rewrite rmatch_lit.
  apply rmatch_plus_greedy; [assumption | assumption | reflexivity |].
  rewrite rmatch_lit_end. reflexivity.
Qed.

Lemma declaration_not_nil arg : declaration arg <> [].
Proof. discriminate. Qed.

Lemma sub_declaration arg s :
  arg <> [] -> forallb (is_not dq) arg = true ->
  sub pattern1 replacement1 (declaration arg ++ s) =
  replacement1_text ++ sub pattern1 replacement1 s.
Proof.
  intros Hne Harg.
  rewrite (sub_match pattern1 replacement1 (declaration arg) s []).
  - cbn [expand replacement1 flat_map expand_item].
    rewrite app_nil_r. reflexivity.
  - apply declaration_not_nil.
  - apply pattern1_matches; assumption.
Qed.




Lemma pattern1_not_at_space s : match_at pattern1 false (sp :: s) = None.
Proof. reflexivity. Qed.

Lemma repeat_split_tail (c : char) n a b :
  repeat c n = a ++ b -> b <> [] -> exists b', b = c :: b'.
Proof.
  intros H Hb. destruct b as [|x b]; [congruence|]. exists b. f_equal.
  apply (repeat_spec n c x). rewrite H. apply in_or_app. right. left.
  reflexivity.
Qed.

Lemma repeat_sp_inj n m : repeat sp n = repeat sp m -> n = m.
Proof.
  intros H. apply (f_equal (@length char)) in H.
  rewrite !repeat_length in H. exact H.
Qed.

(** C8. Whatever the indentation of the matched declaration, the lock line
    and the reassignment line of Rule A's replacement are indented by
    exactly four spaces; when the declaration was indented by another number
    of spaces the inserted lines do not reproduce its indentation. *)
Theorem rule_a_fixed_indentation (n : nat) (arg s : text) :
  arg <> [] -> forallb (is_not dq) arg = true -> n <> 4 ->
  sub pattern1 replacement1 (repeat sp n ++ declaration arg ++ s) =
  repeat sp n ++
    (line_use_shared ++ [nl] ++
     repeat sp 4 ++ line_lock ++ [nl] ++
     [nl] ++
     repeat sp 4 ++ line_reassign) ++
    sub pattern1 replacement1 s
  /\ repeat sp 4 <> repeat sp n.
Proof.
  intros Hne Harg Hn. split.
  - rewrite sub_prefix.
    + rewrite sub_declaration by assumption. reflexivity.
    + intros a b Hab Hb.
      destruct (repeat_split_tail sp n a b Hab Hb) as [b' ->].
      apply pattern1_not_at_space.
  - intros H. apply repeat_sp_inj in H. congruence.
Qed.

Lemma rule_a_fixed_indentation_witness :
  sub pattern1 replacement1 (repeat sp 8 ++ declaration (str "path") ++ []) =
  repeat sp 8 ++
    (line_use_shared ++ [nl] ++
     repeat sp 4 ++ line_lock ++ [nl] ++
     [nl] ++
     repeat sp 4 ++ line_reassign) ++
    sub pattern1 replacement1 []
  /\ repeat sp 4 <> repeat sp 8.
Proof.
  apply (rule_a_fixed_indentation 8 (str "path") []);
    [discriminate | reflexivity | lia].
Defined.

(** * Rule B *)

Lemma blank_spec ws :
  blank ws = true -> ws <> [] /\ forallb is_space ws = true.
Proof.
  destruct ws as [|w ws]; [discriminate|]. intros H.
  split; [discriminate | exact H].
Qed.

Lemma null_check_not_nil ws1 ws2 ws3 : null_check ws1 ws2 ws3 <> [].
Proof. discriminate. Qed.

Lemma pattern2_matches ws1 ws2 ws3 s :
  blank ws1 = true -> blank ws2 = true -> blank ws3 = true ->
  match_at pattern2 false (null_check ws1 ws2 ws3 ++ s) =
  Some (s, [(3, ws3); (2, ws2); (1, ws1)]).
Proof.
  intros H1 H2 H3.
  apply blank_spec in H1 as [N1 B1].
  apply blank_spec in H2 as [N2 B2].
  apply blank_spec in H3 as [N3 B3].
  unfold match_at, pattern2, null_check. rewrite <- !app_assoc.
  rewrite rmatch_lit.
  apply rmatch_group_greedy; [assumption | assumption | reflexivity |].
  rewrite rmatch_lit.
  apply rmatch_group_greedy; [assumption | assumption | reflexivity |].
  rewrite rmatch_lit.
  apply rmatch_group_greedy; [assumption | assumption | reflexivity |].
  rewrite rmatch_lit_end. reflexivity.
Qed.

Lemma sub_null_check ws1 ws2 ws3 s :
  blank ws1 = true -> blank ws2 = true -> blank ws3 = true ->
  sub pattern2 replacement2 (null_check ws1 ws2 ws3 ++ s) =
  null_check_rewritten ws1 ws1 ws1 ws3 ++ sub pattern2 replacement2 s.
Proof.
  intros H1 H2 H3.
  rewrite (sub_match pattern2 replacement2 (null_check ws1 ws2 ws3) s
             [(3, ws3); (2, ws2); (1, ws1)]).
  - unfold null_check_rewritten.
    cbn [expand replacement2 flat_map expand_item group Nat.eqb].
    rewrite app_nil_r, <- !app_assoc. reflexivity.
  - apply null_check_not_nil.
  - apply pattern2_matches; assumption.
Qed.

(** C4 (as the code has it).  When Rule B's block matches, the first
    captured span of white space is reused verbatim before each of the three
    statements of the new body (the unlock call, the error report and the
    return) and the third captured span before the closing brace; the second
    captured span is not reused. *)
Theorem rule_b_reuses_first_and_third_span (ws1 ws2 ws3 s : text) :
  blank ws1 = true -> blank ws2 = true -> blank ws3 = true ->
  match_at pattern2 false (null_check ws1 ws2 ws3 ++ s) =
  Some (s, [(3, ws3); (2, ws2); (1, ws1)]) /\
  sub pattern2 replacement2 (null_check ws1 ws2 ws3 ++ s) =
  null_check_rewritten ws1 ws1 ws1 ws3 ++ sub pattern2 replacement2 s.
Proof.
  intros H1 H2 H3. split.
  - apply pattern2_matches; assumption.
  - apply sub_null_check; assumption.
Qed.

Lemma rule_b_reuses_first_and_third_span_witness :
  blank span4 = true /\ blank span8 = true /\ blank [nl] = true /\
  match_at pattern2 false (null_check span4 span8 [nl] ++ []) =
  Some ([], [(3, [nl]); (2, span8); (1, span4)]) /\
  sub pattern2 replacement2 (null_check span4 span8 [nl] ++ []) =
  null_check_rewritten span4 span4 span4 [nl] ++
  sub pattern2 replacement2 [].
Proof.
  split; [reflexivity|]. split; [reflexivity|]. split; [reflexivity|].
  apply (rule_b_reuses_first_and_third_span span4 span8 [nl] []);
    reflexivity.
Defined.

(** C4 as stated fails when the second span differs from the first: the
    return statement of the new body is preceded by the first span, not by
    the second one that preceded the original return statement. *)
Lemma rule_b_drops_second_span :
  blank span4 = true /\ blank span8 = true /\ blank [nl] = true /\
  migrate_endpoint (null_check span4 span8 [nl]) =
  null_check_rewritten span4 span4 span4 [nl] /\
  migrate_endpoint (null_check span4 span8 [nl]) <>
  null_check_rewritten span4 span4 span8 [nl].
Proof.
  split; [reflexivity|]. split; [reflexivity|]. split; [reflexivity|].
  assert (E : migrate_endpoint (null_check span4 span8 [nl]) =
              null_check_rewritten span4 span4 span4 [nl])
    by (vm_compute; reflexivity).
  split; [exact E|]. rewrite E. vm_compute. discriminate.
Qed.

(** * Rule C *)

Section Backtracking.

Variable p : char -> bool.

(** After a run of the class only its end can start a literal whose first
    character is outside the class. *)
Lemma star_only_at_end ws s k :
  forallb p ws = true -> stops p s = true ->
  (forall a b, ws = a ++ b -> b <> [] -> k (b ++ s) = None) ->
  star p (ws ++ s) k = k s.
Proof.
  intros Hws Hs. induction ws as [|w ws IH]; intros Hk.
  - apply star_stops. exact Hs.
  - cbn [app star forallb] in *.
    apply andb_true_iff in Hws as [Hw Hws]. rewrite Hw, IH; trivial.
    + assert (E : k ((w :: ws) ++ s) = None)
        by (apply (Hk [] (w :: ws)); [reflexivity | discriminate]).
      cbn [app] in E. rewrite E. destruct (k s); reflexivity.
    + intros a b -> Hb. apply (Hk (w :: a) b); [reflexivity | exact Hb].
Qed.

Lemma strip_prefix_class_clash l b s :
  stops p l = true -> l <> [] -> forallb p b = true -> b <> [] ->
  strip_prefix l (b ++ s) = None.
Proof.
  intros Hl Hne Hb Hbne.
  destruct l as [|c l]; [congruence|]. destruct b as [|w b]; [congruence|].
  cbn in *. apply andb_true_iff in Hb as [Hw _].
  destruct (N.eqb_spec c w) as [->|]; [|reflexivity].
  rewrite Hw in Hl. discriminate.
Qed.

Lemma forallb_app_r (a b : text) :
  forallb p (a ++ b) = true -> forallb p b = true.
Proof. rewrite forallb_app. intros H. apply andb_true_iff in H. tauto. Qed.

(** A greedy class run followed by a literal that starts outside the
    class: the run is taken whole and nothing is given back. *)
Lemma rmatch_plus_lit l r ws s caps k :
  ws <> [] -> forallb p ws = true -> stops p l = true -> l <> [] ->
  rmatch (Plus p ;; Lit l ;; r) (ws ++ l ++ s) caps k = rmatch r s caps k.
Proof.
  intros Hne Hws Hl Hlne. destruct ws as [|w ws]; [congruence|].
  cbn [rmatch plus app]. cbn [forallb] in Hws.
  apply andb_true_iff in Hws as [Hw Hws]. rewrite Hw.
  rewrite star_only_at_end; trivial.
  - rewrite strip_prefix_app. reflexivity.
  - destruct l; [congruence | exact Hl].
  - intros a b -> Hb. rewrite strip_prefix_class_clash; trivial.
    apply forallb_app_r in Hws. exact Hws.
Qed.

Lemma rmatch_group_lit n l r ws s caps k :
  ws <> [] -> forallb p ws = true -> stops p l = true -> l <> [] ->
  rmatch (Group n (Plus p) ;; Lit l ;; r) (ws ++ l ++ s) caps k =
  rmatch r s (set_group n ws caps) k.
Proof.
  intros Hne Hws Hl Hlne. destruct ws as [|w ws]; [congruence|].
  cbn [rmatch plus app]. cbn [forallb] in Hws.
  apply andb_true_iff in Hws as [Hw Hws]. rewrite Hw.
  rewrite star_only_at_end; trivial.
  - rewrite strip_prefix_app.
    change (w :: ws ++ l ++ s) with ((w :: ws) ++ l ++ s).
    rewrite firstn_matched. reflexivity.
  - destruct l; [congruence | exact Hl].
  - intros a b -> Hb. rewrite strip_prefix_class_clash; trivial.
    apply forallb_app_r in Hws. exact Hws.
Qed.

Lemma plus_stops s k : stops p s = true -> plus p s k = None.
Proof.
  destruct s as [|c s]; [reflexivity|]. cbn. intros H.
  apply negb_true_iff in H. rewrite H. reflexivity.
Qed.

End Backtracking.

Lemma call_args_spec args :
  call_args args = true ->
  args <> [] /\ forallb (is_not rparen) args = true.
Proof.
  destruct args; [discriminate|]. intros H. split; [discriminate | exact H].
Qed.

(** Up to the closing brace the pattern follows the block step by step. *)
Lemma pattern3_through_block_from ws1 ws2 ws3 args ws4 ws5 s caps k :
  blank ws1 = true -> blank ws2 = true -> blank ws3 = true ->
  call_args args = true -> blank ws4 = true -> blank ws5 = true ->
  rmatch pattern3 (load_block ws1 ws2 ws3 args ws4 ws5 ++ s) caps k =
  rmatch pattern3_tail s
    (load_block_captures ws1 ws2 ws3 ws4 ws5 ++ caps) k.
Proof.
  intros H1 H2 H3 Ha H4 H5.
  apply blank_spec in H1 as [N1 B1]. apply blank_spec in H2 as [N2 B2].
  apply blank_spec in H3 as [N3 B3]. apply blank_spec in H4 as [N4 B4].
  apply blank_spec in H5 as [N5 B5]. apply call_args_spec in Ha as [Na Ba].
  unfold pattern3, load_block. rewrite <- !app_assoc.
  rewrite rmatch_lit.
  rewrite rmatch_group_lit by (trivial; discriminate).
  rewrite rmatch_group_lit by (trivial; discriminate).
  rewrite rmatch_group_lit by (trivial; discriminate).
  rewrite rmatch_plus_lit by (trivial; discriminate).
  rewrite rmatch_group_lit by (trivial; discriminate).
  rewrite rmatch_group_lit by (trivial; discriminate).
  reflexivity.
Qed.

Lemma pattern3_through_block ws1 ws2 ws3 args ws4 ws5 s k :
  blank ws1 = true -> blank ws2 = true -> blank ws3 = true ->
  call_args args = true -> blank ws4 = true -> blank ws5 = true ->
  rmatch pattern3 (load_block ws1 ws2 ws3 args ws4 ws5 ++ s) [] k =
  rmatch pattern3_tail s (load_block_captures ws1 ws2 ws3 ws4 ws5) k.
Proof.
  intros H1 H2 H3 Ha H4 H5.
  rewrite pattern3_through_block_from by assumption.
  rewrite app_nil_r. reflexivity.
Qed.

Lemma rmatch_opt_group_lit_take n l r s caps k x :
  rmatch r s (set_group n l caps) k = Some x ->
  rmatch (Opt (Group n (Lit l)) ;; r) (l ++ s) caps k = Some x.
Proof.
  intros H. cbn [rmatch]. rewrite strip_prefix_app, firstn_matched, H.
  reflexivity.
Qed.

Lemma rmatch_opt_group_lit_end_take n l s caps k x :
  k s (set_group n l caps) = Some x ->
  rmatch (Opt (Group n (Lit l))) (l ++ s) caps k = Some x.
Proof.
  intros H. cbn [rmatch]. rewrite strip_prefix_app, firstn_matched, H.
  reflexivity.
Qed.

(** With both optional parts present the tail takes them all. *)
Lemma pattern3_tail_full ws6 ws7 s caps k x :
  blank ws6 = true -> blank ws7 = true ->
  k s ((9, lit_cleanup) :: (8, ws7) :: (7, lit_cleanup_comment) ::
       (6, ws6) :: caps) = Some x ->
  rmatch pattern3_tail (ws6 ++ lit_cleanup_comment ++ ws7 ++ lit_cleanup ++ s)
    caps k = Some x.
Proof.
  intros H6 H7 Hk.
  apply blank_spec in H6 as [N6 B6]. apply blank_spec in H7 as [N7 B7].
  unfold pattern3_tail.
  apply rmatch_group_greedy; [assumption | assumption | reflexivity |].
  apply rmatch_opt_group_lit_take.
  apply rmatch_group_greedy; [assumption | assumption | reflexivity |].
  apply rmatch_opt_group_lit_end_take. exact Hk.
Qed.

Lemma pattern3_matches_full ws1 ws2 ws3 args ws4 ws5 ws6 ws7 s :
  blank ws1 = true -> blank ws2 = true -> blank ws3 = true ->
  call_args args = true -> blank ws4 = true -> blank ws5 = true ->
  blank ws6 = true -> blank ws7 = true ->
  match_at pattern3 false
    (full_load_block ws1 ws2 ws3 args ws4 ws5 ws6 ws7 ++ s) =
  Some (s, full_load_block_captures ws1 ws2 ws3 ws4 ws5 ws6 ws7).
Proof.
  intros H1 H2 H3 Ha H4 H5 H6 H7.
  unfold match_at, full_load_block. rewrite <- !app_assoc.
  rewrite pattern3_through_block by assumption.
  apply pattern3_tail_full; trivial.
Qed.

Lemma full_load_block_not_nil ws1 ws2 ws3 args ws4 ws5 ws6 ws7 :
  full_load_block ws1 ws2 ws3 args ws4 ws5 ws6 ws7 <> [].
Proof. discriminate. Qed.

Lemma sub_full_load_block ws1 ws2 ws3 args ws4 ws5 ws6 ws7 s :
  blank ws1 = true -> blank ws2 = true -> blank ws3 = true ->
  call_args args = true -> blank ws4 = true -> blank ws5 = true ->
  blank ws6 = true -> blank ws7 = true ->
  sub pattern3 replacement3
    (full_load_block ws1 ws2 ws3 args ws4 ws5 ws6 ws7 ++ s) =
  sub pattern3 replacement3 s.
Proof.
  intros H1 H2 H3 Ha H4 H5 H6 H7.
  rewrite (sub_match pattern3 replacement3 _ s
             (full_load_block_captures ws1 ws2 ws3 ws4 ws5 ws6 ws7)).
  - reflexivity.
  - apply full_load_block_not_nil.
  - apply pattern3_matches_full; assumption.
Qed.

Lemma starts_in_false r pre s :
  starts_in r pre s = false ->
  forall a b, pre = a ++ b -> b <> [] -> match_at r false (b ++ s) = None.
Proof.
  induction pre as [|c pre IH]; intros H a b Hab Hb.
  - destruct a; destruct b; try discriminate. congruence.
  - cbn [starts_in] in H.
    destruct (match_at r false ((c :: pre) ++ s)) eqn:E; [discriminate|].
    destruct a as [|a0 a].
    + cbn [app] in Hab. subst b. exact E.
    + cbn [app] in Hab. injection Hab as _ Hab.
      apply (IH H a b Hab Hb).
Qed.

(** C6 (as the code has it).  The input holds Rule C's full block once,
    with both optional parts present, between [pre] and [suf].  The
    patterns of Rule A and Rule B match nowhere in the input, the block
    included; Rule C's pattern matches nowhere before the block nor in
    [suf]; and Rule D's pattern does not occur in the surrounding text
    [pre ++ suf].  Then the block is removed entirely and every character
    outside it is unchanged. *)
Theorem rule_c_removes_full_block
  (pre suf ws1 ws2 ws3 args ws4 ws5 ws6 ws7 : text) :
  blank ws1 = true -> blank ws2 = true -> blank ws3 = true ->
  call_args args = true -> blank ws4 = true -> blank ws5 = true ->
  blank ws6 = true -> blank ws7 = true ->
  occurs pattern1
    (pre ++ full_load_block ws1 ws2 ws3 args ws4 ws5 ws6 ws7 ++ suf) = false ->
  occurs pattern2
    (pre ++ full_load_block ws1 ws2 ws3 args ws4 ws5 ws6 ws7 ++ suf) = false ->
  starts_in pattern3 pre
    (full_load_block ws1 ws2 ws3 args ws4 ws5 ws6 ws7 ++ suf) = false ->
  occurs pattern3 suf = false ->
  occurs pattern4 (pre ++ suf) = false ->
  migrate_endpoint
    (pre ++ full_load_block ws1 ws2 ws3 args ws4 ws5 ws6 ws7 ++ suf) =
  pre ++ suf.
Proof.
  intros H1 H2 H3 Ha H4 H5 H6 H7 HA HB HC HC' HD.
  unfold migrate_endpoint.
  rewrite (sub_no_occurrence pattern1 replacement1 _ HA).
  rewrite (sub_no_occurrence pattern2 replacement2 _ HB).
  rewrite (sub_prefix pattern3 replacement3 pre _
             (starts_in_false pattern3 pre _ HC)).
  rewrite sub_full_load_block by assumption.
  rewrite (sub_no_occurrence pattern3 replacement3 _ HC').
  apply sub_no_occurrence. exact HD.
Qed.

Lemma rule_c_removes_full_block_witness :
  migrate_endpoint
    (sample_pre ++
     full_load_block span4 span8 span8 sample_args span8 span4 [nl; nl]
       span4 ++
     sample_suf) =
  sample_pre ++ sample_suf.
Proof.
  apply (rule_c_removes_full_block sample_pre sample_suf
           span4 span8 span8 sample_args span8 span4 [nl; nl] span4);
    vm_compute; reflexivity.
Defined.

(** C6 as stated fails when the pattern of another rule occurs inside the
    block while the surrounding text holds none.  Here the argument list of
    the error report is a registry declaration up to its closing quote:
    Rule A rewrites it together with the [);] that ends the error report,
    Rule C then finds no block, and the block stays in the output, its
    destroy call rewritten by Rule D. *)
Lemma rule_c_keeps_block_rewritten_by_rule_a :
  call_args declaration_as_arguments = true /\
  no_target sample_pre = true /\ no_target sample_suf = true /\
  no_target (sample_pre ++ sample_suf) = true /\
  match_at pattern3 false (block_with_declaration ++ sample_suf) =
  Some (sample_suf,
        full_load_block_captures span4 span8 span8 span8 span4 [nl; nl]
          span4) /\
  starts_in pattern3 sample_pre (block_with_declaration ++ sample_suf) =
  false /\
  occurs pattern2 (sample_pre ++ block_with_declaration ++ sample_suf) =
  false /\
  occurs pattern1 (sample_pre ++ block_with_declaration ++ sample_suf) =
  true /\
  migrate_endpoint (sample_pre ++ block_with_declaration ++ sample_suf) =
  sample_pre ++ block_with_declaration_migrated ++ sample_suf /\
  migrate_endpoint (sample_pre ++ block_with_declaration ++ sample_suf) <>
  sample_pre ++ sample_suf.
Proof.
  assert (E : migrate_endpoint
                (sample_pre ++ block_with_declaration ++ sample_suf) =
              sample_pre ++ block_with_declaration_migrated ++ sample_suf)
    by (vm_compute; reflexivity).
  repeat (split; [vm_compute; reflexivity|]).
  rewrite E. vm_compute. discriminate.
Qed.

Lemma no_optional_part_spec rest :
  no_optional_part rest = true ->
  strip_prefix lit_cleanup_comment rest = None /\
  strip_prefix lit_cleanup rest = None.
Proof.
  unfold no_optional_part.
  destruct (strip_prefix lit_cleanup_comment rest);
    destruct (strip_prefix lit_cleanup rest); intros H;
    try discriminate. split; reflexivity.
Qed.

(** With neither optional part the two white-space groups of the tail
    share the run after the brace: the first gives back its last
    character to the second. *)
Lemma pattern3_tail_bare ws w rest caps k x :
  ws <> [] -> forallb is_space ws = true -> is_space w = true ->
  stops is_space rest = true -> no_optional_part rest = true ->
  k rest ((8, [w]) :: (6, ws) :: caps) = Some x ->
  rmatch pattern3_tail (ws ++ w :: rest) caps k = Some x.
Proof.
  intros Hne Hws Hw Hrest Hopt Hk.
  apply no_optional_part_spec in Hopt as [Hc Hl].
  destruct ws as [|a ws]; [congruence|].
  cbn [forallb] in Hws. apply andb_true_iff in Hws as [Ha Hws].
  unfold pattern3_tail. cbn [rmatch plus app]. rewrite Ha.
  apply star_give_back; trivial.
  - rewrite Hc. apply plus_stops. exact Hrest.
  - assert (Ec : strip_prefix lit_cleanup_comment (w :: rest) = None).
    { apply (strip_prefix_class_clash is_space lit_cleanup_comment [w] rest);
        [reflexivity | discriminate | | discriminate].
      cbn. rewrite Hw. reflexivity. }
    rewrite Ec. cbn [plus]. rewrite Hw. rewrite star_stops by exact Hrest.
    rewrite Hl.
    change (w :: rest) with ([w] ++ rest). rewrite firstn_matched.
    change (a :: ws ++ [w] ++ rest) with ((a :: ws) ++ [w] ++ rest).
    rewrite firstn_matched. exact Hk.
Qed.

(** Fewer than two characters of white space: the tail cannot match. *)
Lemma pattern3_tail_short ws rest caps k :
  length ws < 2 -> forallb is_space ws = true ->
  stops is_space rest = true -> no_optional_part rest = true ->
  rmatch pattern3_tail (ws ++ rest) caps k = None.
Proof.
  intros Hlen Hws Hrest Hopt.
  apply no_optional_part_spec in Hopt as [Hc Hl].
  unfold pattern3_tail. cbn [rmatch].
  destruct ws as [|w ws].
  - apply plus_stops. exact Hrest.
  - destruct ws as [|w' ws]; [|cbn in Hlen; lia].
    cbn [forallb] in Hws. apply andb_true_iff in Hws as [Hw _].
    cbn [plus app]. rewrite Hw. rewrite star_stops by exact Hrest.
    rewrite Hc. apply plus_stops. exact Hrest.
Qed.

Lemma split_last (ws : text) :
  2 <= length ws -> exists ws' w, ws = ws' ++ [w] /\ ws' <> [].
Proof.
  intros H. destruct (exists_last (l := ws)) as [ws' [w E]].
  - destruct ws; [cbn in H; lia | discriminate].
  - exists ws', w. split; [exact E|]. intros ->. subst ws. cbn in H. lia.
Qed.

Lemma load_block_not_nil ws1 ws2 ws3 args ws4 ws5 s :
  load_block ws1 ws2 ws3 args ws4 ws5 ++ s <> [].
Proof. discriminate. Qed.

(** * Texts in which a pattern cannot start *)

Section Clear.

Lemma never_match_at r t : never r t -> match_at r false t = None.
Proof. intros H. apply H. Qed.

Lemma never_lit l r t : strip_prefix l t = None -> never (Lit l ;; r) t.
Proof. intros H caps k. apply rmatch_lit_fail. exact H. Qed.

Lemma never_lit_end l t : strip_prefix l t = None -> never (Lit l) t.
Proof. intros H caps k. cbn [rmatch]. rewrite H. reflexivity. Qed.

Lemma clear_nil r x : clear r [] x.
Proof. intros a b H Hb. destruct a; destruct b; try discriminate. congruence. Qed.

Lemma clear_cons r c pre x :
  never r ((c :: pre) ++ x) -> clear r pre x -> clear r (c :: pre) x.
Proof.
  intros H0 H a b Hab Hb. destruct a as [|a0 a].
  - cbn [app] in Hab. subst b. exact H0.
  - cbn [app] in Hab. injection Hab as _ Hab. apply (H a b Hab Hb).
Qed.

Lemma clear_app r p1 p2 x :
  clear r p1 (p2 ++ x) -> clear r p2 x -> clear r (p1 ++ p2) x.
Proof.
  induction p1 as [|c p1 IH]; intros H1 H2; [exact H2|].
  cbn [app]. apply clear_cons.
  - cbn [app]. rewrite <- app_assoc.
    apply (H1 [] (c :: p1)); [reflexivity | discriminate].
  - apply IH; [|exact H2]. intros a b -> Hb.
    apply (H1 (c :: a) b); [reflexivity | exact Hb].
Qed.

Lemma clear_sub r t pre x :
  clear r pre x -> sub r t (pre ++ x) = pre ++ sub r t x.
Proof.
  intros H. apply sub_prefix. intros a b Hab Hb.
  apply never_match_at. apply (H a b Hab Hb).
Qed.

Lemma mismatch_strip l b x : mismatch l b = true -> strip_prefix l (b ++ x) = None.
Proof.
  revert b. induction l as [|c l IH]; intros b H; [discriminate|].
  destruct b as [|y b]; [discriminate|]. cbn in *.
  destruct (c =? y)%N; [apply IH; exact H | reflexivity].
Qed.

Lemma borderless_strip l pre x a b :
  borderless l pre = true -> pre = a ++ b -> b <> [] ->
  strip_prefix l (b ++ x) = None.
Proof.
  revert a. induction pre as [|c pre IH]; intros a H Hab Hb.
  - destruct a; destruct b; try discriminate. congruence.
  - cbn [borderless] in H. apply andb_true_iff in H as [H0 H].
    destruct a as [|a0 a].
    + cbn [app] in Hab. subst b. apply mismatch_strip. exact H0.
    + cbn [app] in Hab. injection Hab as _ Hab. apply (IH a H Hab Hb).
Qed.

(** A literal segment without a border of the pattern's first literal. *)
Lemma clear_borderless l r pre x :
  borderless l pre = true -> clear (Lit l ;; r) pre x.
Proof.
  intros H a b Hab Hb. apply never_lit.
  apply (borderless_strip l pre x a b H Hab Hb).
Qed.

Lemma clear_borderless_end l pre x :
  borderless l pre = true -> clear (Lit l) pre x.
Proof.
  intros H a b Hab Hb. apply never_lit_end.
  apply (borderless_strip l pre x a b H Hab Hb).
Qed.

(** A run of a class the pattern's first literal starts outside of. *)
Lemma class_strip p l ws x a b :
  forallb p ws = true -> stops p l = true -> l <> [] ->
  ws = a ++ b -> b <> [] -> strip_prefix l (b ++ x) = None.
Proof.
  intros Hws Hl Hne -> Hb. apply (strip_prefix_class_clash p); trivial.
  apply (forallb_app_r p a). exact Hws.
Qed.

Lemma clear_class p l r ws x :
  forallb p ws = true -> stops p l = true -> l <> [] ->
  clear (Lit l ;; r) ws x.
Proof.
  intros Hws Hl Hne a b Hab Hb. apply never_lit.
  apply (class_strip p l ws x a b); assumption.
Qed.

Lemma clear_class_end p l ws x :
  forallb p ws = true -> stops p l = true -> l <> [] ->
  clear (Lit l) ws x.
Proof.
  intros Hws Hl Hne a b Hab Hb. apply never_lit_end.
  apply (class_strip p l ws x a b); assumption.
Qed.

End Clear.

(** * Matches that end before a given text *)

Section Framing.

Lemma mismatch_sym l b : mismatch l b = mismatch b l.
Proof.
  revert b. induction l as [|x l IH]; intros [|y b]; try reflexivity.
  cbn. rewrite (N.eqb_sym y x). destruct (x =? y)%N; [apply IH | reflexivity].
Qed.

Lemma borderless_mismatch l pre a b :
  borderless l pre = true -> pre = a ++ b -> b <> [] -> mismatch l b = true.
Proof.
  revert a. induction pre as [|c pre IH]; intros a H Hab Hb.
  - destruct a; destruct b; try discriminate. congruence.
  - cbn [borderless] in H. apply andb_true_iff in H as [H0 H].
    destruct a as [|a0 a].
    + cbn [app] in Hab. subst b. exact H0.
    + cbn [app] in Hab. injection Hab as _ Hab. apply (IH a H Hab Hb).
Qed.

Lemma apart_borderless l p y : borderless p l = true -> apart l (p ++ y).
Proof.
  intros H l1 l2 E Hne. apply mismatch_strip. rewrite mismatch_sym.
  apply (borderless_mismatch p l l1 l2 H E Hne).
Qed.

Lemma apart_head l x :
  strip_prefix l x = None -> apart (tl l) x -> apart l x.
Proof.
  intros H0 H l1 l2 E Hne. destruct l1 as [|c l1].
  - cbn [app] in E. subst l2. exact H0.
  - subst l. apply (H l1 l2); [reflexivity | exact Hne].
Qed.

Lemma strip_prefix_frame_some l b x t :
  strip_prefix l b = Some t -> strip_prefix l (b ++ x) = Some (t ++ x).
Proof.
  intros H. apply strip_prefix_Some in H. subst b.
  rewrite <- app_assoc. apply strip_prefix_app.
Qed.

Lemma strip_prefix_frame_none l b x :
  apart l x -> strip_prefix l b = None -> strip_prefix l (b ++ x) = None.
Proof.
  revert b. induction l as [|a l IH]; intros b Ha H; [discriminate|].
  destruct b as [|c b].
  - apply (Ha [] (a :: l)); [reflexivity | discriminate].
  - cbn in *. destruct (a =? c)%N; [|reflexivity].
    apply IH; [|exact H]. intros l1 l2 -> Hne.
    apply (Ha (a :: l1) l2); [reflexivity | exact Hne].
Qed.

Lemma shift_or x (o : option result) (o' : option result) :
  shift x match o with Some y => Some y | None => o' end =
  match shift x o with Some y => Some y | None => shift x o' end.
Proof. destruct o as [[rest caps]|]; reflexivity. Qed.

Lemma frame_lit l x : apart l x -> frame (Lit l) x.
Proof.
  intros Ha b caps K k HK. cbn [rmatch].
  destruct (strip_prefix l b) as [t|] eqn:E.
  - rewrite (strip_prefix_frame_some l b x t E). apply HK.
  - rewrite (strip_prefix_frame_none l b x Ha E). reflexivity.
Qed.

Lemma star_frame p x b (K1 k1 : text -> option result) :
  star p x K1 = K1 x ->
  (forall t, K1 (t ++ x) = shift x (k1 t)) ->
  star p (b ++ x) K1 = shift x (star p b k1).
Proof.
  intros Hx HK. induction b as [|c b IH].
  - cbn [app star]. rewrite Hx. apply (HK []).
  - cbn [app star]. destruct (p c).
    + rewrite IH, shift_or. rewrite <- (HK (c :: b)). reflexivity.
    + apply (HK (c :: b)).
Qed.

Lemma plus_frame p x b (K1 k1 : text -> option result) :
  star p x K1 = K1 x -> plus p x K1 = None ->
  (forall t, K1 (t ++ x) = shift x (k1 t)) ->
  plus p (b ++ x) K1 = shift x (plus p b k1).
Proof.
  intros Hx Hp HK. destruct b as [|c b].
  - cbn [app]. rewrite Hp. reflexivity.
  - cbn [app plus]. destruct (p c); [|reflexivity].
    apply star_frame; assumption.
Qed.

(** A class the text [x] starts outside of. *)
Lemma frame_plus_stops p x : stops p x = true -> frame (Plus p) x.
Proof.
  intros Hs b caps K k HK. cbn [rmatch]. apply plus_frame.
  - apply star_stops. exact Hs.
  - apply plus_stops. exact Hs.
  - intros t. apply HK.
Qed.

Lemma star_dead p x (K1 : text -> option result) :
  (forall h t, x = h ++ t -> h <> [] -> forallb p h = true -> K1 t = None) ->
  star p x K1 = K1 x.
Proof.
  induction x as [|c x IH]; intros Hd; [reflexivity|].
  cbn [star]. destruct (p c) eqn:Hc; [|reflexivity].
  rewrite IH.
  - rewrite (Hd [c] x); [reflexivity | reflexivity | discriminate |].
    cbn. rewrite Hc. reflexivity.
  - intros h t -> Hne Hh. apply (Hd (c :: h) t);
      [reflexivity | discriminate |]. cbn. rewrite Hc. exact Hh.
Qed.

Lemma plus_dead p x (K1 : text -> option result) :
  (forall h t, x = h ++ t -> h <> [] -> forallb p h = true -> K1 t = None) ->
  plus p x K1 = None.
Proof.
  intros Hd. destruct x as [|c x]; [reflexivity|].
  cbn [plus]. destruct (p c) eqn:Hc; [|reflexivity].
  rewrite star_dead.
  - apply (Hd [c] x); [reflexivity | discriminate |].
    cbn. rewrite Hc. reflexivity.
  - intros h t -> Hne Hh. apply (Hd (c :: h) t);
      [reflexivity | discriminate |]. cbn. rewrite Hc. exact Hh.
Qed.

(** A class whose run may go on into [x]: the rest of the pattern fails
    wherever the run can stop inside [x]. *)
Lemma frame_plus_cross p r x :
  frame r x ->
  (forall h t, x = h ++ t -> h <> [] -> forallb p h = true -> never r t) ->
  frame (Plus p ;; r) x.
Proof.
  intros Hr Hd b caps K k HK. cbn [rmatch].
  apply (plus_frame p x b (fun s' => rmatch r s' caps K)
           (fun s' => rmatch r s' caps k)).
  - apply star_dead. intros h t E Hne Hh. apply (Hd h t E Hne Hh).
  - apply plus_dead. intros h t E Hne Hh. apply (Hd h t E Hne Hh).
  - intros t. apply Hr. exact HK.
Qed.

Lemma frame_seq r1 r2 x : frame r1 x -> frame r2 x -> frame (r1 ;; r2) x.
Proof.
  intros H1 H2 b caps K k HK. cbn [rmatch]. apply H1.
  intros t c. apply H2. exact HK.
Qed.

Lemma frame_group n r x : frame r x -> frame (Group n r) x.
Proof.
  intros H b caps K k HK. cbn [rmatch]. apply H. intros t c.
  rewrite <- HK. f_equal. f_equal.
  rewrite !length_app.
  replace (length b + length x - (length t + length x))
    with (length b - length t) by lia.
  rewrite firstn_app.
  replace (length b - length t - length b) with 0 by lia.
  cbn [firstn]. apply app_nil_r.
Qed.

Lemma frame_opt r x : frame r x -> frame (Opt r) x.
Proof.
  intros H b caps K k HK. cbn [rmatch].
  rewrite (H b caps K k HK), shift_or, <- (HK b caps). reflexivity.
Qed.

Lemma frame_match_at r x adv b :
  frame r x -> match_at r adv (b ++ x) = shift x (match_at r adv b).
Proof.
  intros H. unfold match_at. apply H. intros t c. unfold accept.
  rewrite !length_app.
  replace (length t + length x =? length b + length x)
    with (length t =? length b).
  - destruct (adv && (length t =? length b)); reflexivity.
  - destruct (Nat.eqb_spec (length t) (length b)) as [E|E];
      symmetry; [apply Nat.eqb_eq | apply Nat.eqb_neq]; lia.
Qed.

(** The scan before [x] goes as if the text ended there. *)
Lemma sub_go_frame r t x :
  frame r x -> match_at r false [] = None ->
  forall pre n, n <= length pre ->
  sub_go r t (pre ++ x) n = sub_go r t pre n ++ sub r t x.
Proof.
  intros F H0. induction pre as [|c pre IH]; intros n Hn.
  - destruct n; [|cbn in Hn; lia].
    cbn [app]. change (sub_go r t [] 0) with
      (match match_at r false [] with
       | Some (rest, caps) =>
           match length (@nil char) - length rest with
           | S n => expand t caps ++ []
           | O =>
               expand t caps ++
               match match_at r true [] with
               | Some (rest2, caps2) => expand t caps2 ++ []
               | None => []
               end
           end
       | None => []
       end).
    rewrite H0. reflexivity.
  - destruct n as [|n].
    + change ((c :: pre) ++ x) with (c :: pre ++ x).
      cbn [sub_go].
      change (c :: pre ++ x) with ((c :: pre) ++ x).
      rewrite !(frame_match_at r x _ (c :: pre) F).
      destruct (match_at r false (c :: pre)) as [[rest caps]|]; cbn [shift].
      * rewrite !length_app.
        replace (length (c :: pre) + length x - (length rest + length x))
          with (length (c :: pre) - length rest) by lia.
        destruct (length (c :: pre) - length rest) as [|m] eqn:Em.
        -- destruct (match_at r true (c :: pre)) as [[rest2 caps2]|];
             cbn [shift].
           ++ rewrite !length_app.
              replace (length (c :: pre) + length x -
                       (length rest2 + length x) - 1)
                with (length (c :: pre) - length rest2 - 1) by lia.
              rewrite IH by (cbn [length]; lia).
              rewrite <- !app_assoc. reflexivity.
           ++ rewrite IH by lia. rewrite <- !app_assoc. reflexivity.
        -- rewrite IH by (cbn [length] in Em; lia).
           rewrite <- !app_assoc. reflexivity.
      * rewrite IH by lia. reflexivity.
    + cbn [app sub_go]. apply IH. cbn in Hn. lia.
Qed.

Lemma sub_frame r t pre x :
  frame r x -> match_at r false [] = None ->
  sub r t (pre ++ x) = sub r t pre ++ sub r t x.
Proof. intros F H0. apply sub_go_frame; [assumption | assumption | lia]. Qed.

(** A construct no match reaches into and in which no match starts is
    copied, and the text before it and the text after it are rewritten
    independently of each other. *)
Lemma sub_around r t pre c suf :
  frame r (c ++ suf) -> clear r c suf -> match_at r false [] = None ->
  sub r t (pre ++ c ++ suf) = sub r t pre ++ c ++ sub r t suf.
Proof.
  intros F Hc H0. rewrite sub_frame by assumption.
  rewrite clear_sub by assumption. reflexivity.
Qed.

Lemma split_run (d : char) (head y h t : text) :
  forallb (is_not d) head = true -> forallb (is_not d) h = true ->
  head ++ d :: y = h ++ t ->
  exists h2, head = h ++ h2 /\ t = h2 ++ d :: y.
Proof.
  revert head. induction h as [|c h IH]; intros head Hhead Hh E.
  - exists head. split; [reflexivity | symmetry; exact E].
  - cbn [forallb] in Hh. apply andb_true_iff in Hh as [Hc Hh].
    destruct head as [|c' head]; cbn [app] in E.
    + injection E as E1 E2. subst c. unfold is_not in Hc.
      rewrite N.eqb_refl in Hc. discriminate.
    + injection E as E1 E2. subst c'.
      cbn [forallb] in Hhead. apply andb_true_iff in Hhead as [_ Hhead].
      destruct (IH head Hhead Hh E2) as [h2 [-> ->]].
      exists h2. split; reflexivity.
Qed.

End Framing.

(** * The variable name *)

(** Spelled [registry] they are the constructs the rules look for. *)
Lemma declaration_of_registry arg :
  declaration_of registry_name arg = declaration arg.
Proof. reflexivity. Qed.

Lemma null_check_of_registry ws1 ws2 ws3 :
  null_check_of registry_name ws1 ws2 ws3 = null_check ws1 ws2 ws3.
Proof. reflexivity. Qed.

Lemma destroy_call_registry : destroy_call registry_name = lit_destroy.
Proof. reflexivity. Qed.

Lemma load_block_of_registry ws1 ws2 ws3 args ws4 ws5 :
  load_block_of registry_name ws1 ws2 ws3 args ws4 ws5 =
  load_block ws1 ws2 ws3 args ws4 ws5.
Proof. reflexivity. Qed.

Section Identifier.

Lemma strip_prefix_app_cancel (l x y : text) :
  strip_prefix (l ++ x) (l ++ y) = strip_prefix x y.
Proof.
  induction l as [|a l IH]; [reflexivity|]. cbn. rewrite N.eqb_refl.
  exact IH.
Qed.

(** Two identifiers, each followed by a character that cannot be part of
    an identifier: when the identifiers or the following characters differ,
    the texts cannot be matched against each other. *)
Lemma strip_prefix_ident_clash (a v l t : text) (c d : char) :
  forallb is_ident a = true -> forallb is_ident v = true ->
  is_ident c = false -> is_ident d = false -> a <> v \/ c <> d ->
  strip_prefix (a ++ c :: l) (v ++ d :: t) = None.
Proof.
  intros Ha Hv Hc Hd. revert v Hv.
  induction a as [|x a IH]; intros v Hv Hne.
  - destruct v as [|y v]; cbn in *.
    + destruct (N.eqb_spec c d); [|reflexivity]. destruct Hne; congruence.
    + apply andb_true_iff in Hv as [Hy _].
      destruct (N.eqb_spec c y) as [->|]; [congruence | reflexivity].
  - cbn [forallb] in Ha. apply andb_true_iff in Ha as [Hx Ha].
    destruct v as [|y v]; cbn [app strip_prefix].
    + destruct (N.eqb_spec x d) as [->|]; [congruence | reflexivity].
    + cbn [forallb] in Hv. apply andb_true_iff in Hv as [Hy Hv].
      destruct (N.eqb_spec x y) as [->|]; [|reflexivity].
      apply IH; trivial. destruct Hne as [Hne|Hne]; [left|right]; congruence.
Qed.

Lemma ident_strip a c l v d y p q :
  forallb is_ident a = true -> is_ident c = false ->
  forallb is_ident v = true -> is_ident d = false -> c <> d ->
  v = p ++ q -> strip_prefix (a ++ c :: l) (q ++ d :: y) = None.
Proof.
  intros Ha Hc Hv Hd Hcd ->. apply strip_prefix_ident_clash; trivial.
  - apply (forallb_app_r is_ident p). exact Hv.
  - right. exact Hcd.
Qed.

(** Inside an identifier no literal can start that continues, after its
    own leading identifier, with another character than the one that
    follows the identifier in the text. *)
Lemma clear_ident a c l r v d y :
  forallb is_ident a = true -> is_ident c = false ->
  forallb is_ident v = true -> is_ident d = false -> c <> d ->
  clear (Lit (a ++ c :: l) ;; r) v (d :: y).
Proof.
  intros Ha Hc Hv Hd Hcd p q Hpq Hq. apply never_lit.
  apply (ident_strip a c l v d y p q); assumption.
Qed.

Lemma clear_ident_end a c l v d y :
  forallb is_ident a = true -> is_ident c = false ->
  forallb is_ident v = true -> is_ident d = false -> c <> d ->
  clear (Lit (a ++ c :: l)) v (d :: y).
Proof.
  intros Ha Hc Hv Hd Hcd p q Hpq Hq. apply never_lit_end.
  apply (ident_strip a c l v d y p q); assumption.
Qed.

Lemma clear_head r pre x :
  never r (pre ++ x) -> clear r (tl pre) x -> clear r pre x.
Proof.
  destruct pre as [|c pre]; intros H0 H; [apply clear_nil|].
  apply clear_cons; assumption.
Qed.

Variable v : text.
Hypothesis v_ident : forallb is_ident v = true.
Hypothesis v_other : v <> registry_name.

Lemma registry_name_clash (c d : char) (l t : text) :
  is_ident c = false -> is_ident d = false ->
  strip_prefix (registry_name ++ c :: l) (v ++ d :: t) = None.
Proof.
  intros Hc Hd. apply strip_prefix_ident_clash; trivial. left. congruence.
Qed.

(** ** Rule D *)

Lemma lit_destroy_not_at_destroy_call y :
  strip_prefix lit_destroy
    (str "workflow_registry_destroy(" ++ v ++ str ");" ++ y) = None.
Proof.
  change lit_destroy with
    (str "workflow_registry_destroy(" ++ registry_name ++
     rparen :: str ";").
  rewrite strip_prefix_app_cancel.
  apply registry_name_clash; reflexivity.
Qed.

Lemma clear_destroy_call x : clear pattern4 (destroy_call v) x.
Proof.
  unfold destroy_call, pattern4.
  apply clear_app; [|apply clear_app].
  - apply clear_head.
    + apply never_lit_end. rewrite <- !app_assoc.
      apply lit_destroy_not_at_destroy_call.
    + apply clear_borderless_end. vm_compute. reflexivity.
  - apply (clear_ident_end (str "workflow_registry_destroy") 40%N
             (str "registry);") v rparen (str ";" ++ x));
      trivial; (reflexivity || discriminate).
  - apply clear_borderless_end. vm_compute. reflexivity.
Qed.

(** ** Rule B *)

Lemma lit_if_null_not_at_null_check_of y :
  strip_prefix lit_if_null (str "if (!" ++ v ++ str ") {" ++ y) = None.
Proof.
  change lit_if_null with (str "if (!" ++ registry_name ++ rparen :: str " {").
  rewrite strip_prefix_app_cancel.
  apply registry_name_clash; reflexivity.
Qed.

Lemma clear_null_check_of ws1 ws2 ws3 x :
  forallb is_space ws1 = true -> forallb is_space ws2 = true ->
  forallb is_space ws3 = true ->
  clear pattern2 (null_check_of v ws1 ws2 ws3) x.
Proof.
  intros H1 H2 H3. unfold null_check_of, pattern2.
  apply clear_app; [|apply clear_app; [|apply clear_app; [|apply clear_app;
    [|apply clear_app; [|apply clear_app; [|apply clear_app;
    [|apply clear_app]]]]]]].
  - apply clear_head.
    + apply never_lit. rewrite <- !app_assoc.
      apply lit_if_null_not_at_null_check_of.
    + apply clear_borderless. vm_compute. reflexivity.
  - rewrite <- !app_assoc.
    apply (clear_ident (str "if") sp (str "(!registry) {") _ v rparen);
      trivial; (reflexivity || discriminate).
  - apply clear_borderless. vm_compute. reflexivity.
  - apply (clear_class is_space); [assumption | reflexivity | discriminate].
  - apply clear_borderless. vm_compute. reflexivity.
  - apply (clear_class is_space); [assumption | reflexivity | discriminate].
  - apply clear_borderless. vm_compute. reflexivity.
  - apply (clear_class is_space); [assumption | reflexivity | discriminate].
  - apply clear_borderless. vm_compute. reflexivity.
Qed.

End Identifier.

Lemma split_at_first (d : char) (x y x' y' : text) :
  forallb (is_not d) x = true -> forallb (is_not d) x' = true ->
  x ++ d :: y = x' ++ d :: y' -> x = x' /\ y = y'.
Proof.
  revert x'. induction x as [|c x IH]; intros x' Hx Hx' E.
  - destruct x' as [|c' x']; cbn in *.
    + injection E as E. split; [reflexivity | exact E].
    + injection E as E1 E2. subst c'. unfold is_not in Hx'.
      rewrite N.eqb_refl in Hx'. discriminate.
  - cbn [forallb] in Hx. apply andb_true_iff in Hx as [Hc Hx].
    destruct x' as [|c' x']; cbn [app] in E.
    + injection E as E1 E2. subst c. unfold is_not in Hc.
      rewrite N.eqb_refl in Hc. discriminate.
    + injection E as E1 E2. subst c'.
      cbn [forallb] in Hx'. apply andb_true_iff in Hx' as [_ Hx'].
      destruct (IH x' Hx Hx' E2) as [-> ->]. split; reflexivity.
Qed.

(** Inside the argument list of the error report the load statement may
    be spelled out, up to the closing parenthesis of the report; what
    follows is the return statement and not the test of the result, so the
    pattern still fails. *)
Lemma pattern3_clear_args args ws4 y :
  forallb (is_not rparen) args = true -> forallb is_space ws4 = true ->
  clear pattern3 args (lit_call_end ++ ws4 ++ lit_return_result ++ y).
Proof.
  intros Ha H4 p q -> Hq caps k.
  apply (forallb_app_r (is_not rparen) p) in Ha.
  unfold pattern3. cbn [rmatch].
  destruct (strip_prefix lit_load
              (q ++ lit_call_end ++ ws4 ++ lit_return_result ++ y))
    as [t|] eqn:E; [|reflexivity].
  apply strip_prefix_Some in E.
  change lit_load with
    (str "int result = workflow_registry_load(registry" ++
     rparen :: str ";") in E.
  rewrite <- app_assoc in E.
  change (q ++ rparen :: str ";" ++ ws4 ++ lit_return_result ++ y =
          str "int result = workflow_registry_load(registry" ++
          rparen :: str ";" ++ t) in E.
  apply split_at_first in E as [_ E]; [| exact Ha | reflexivity].
  cbn [str app] in E. injection E as E. subst t.
  apply plus_none; [exact H4 | reflexivity |].
  intros a b _ ->. destruct b as [|w b].
  - reflexivity.
  - rewrite <- app_assoc.
    rewrite (strip_prefix_class_clash is_space lit_if_result (w :: b));
      [reflexivity | reflexivity | discriminate | | discriminate].
    apply (forallb_app_r is_space a). exact H4.
Qed.

(** From the white space before the error report to the closing brace. *)
Lemma clear_load_block_end ws3 args ws4 ws5 x :
  forallb is_space ws3 = true -> forallb (is_not rparen) args = true ->
  forallb is_space ws4 = true -> forallb is_space ws5 = true ->
  clear pattern3
    (ws3 ++ lit_set_error ++ args ++ lit_call_end ++ ws4 ++
     lit_return_result ++ ws5 ++ lit_close) x.
Proof.
  intros H3 Ha H4 H5.
  apply clear_app; [|apply clear_app; [|apply clear_app; [|apply clear_app;
    [|apply clear_app; [|apply clear_app; [|apply clear_app]]]]]].
  - apply (clear_class is_space); [assumption | reflexivity | discriminate].
  - apply clear_borderless. vm_compute. reflexivity.
  - rewrite <- !app_assoc. apply pattern3_clear_args; assumption.
  - apply clear_borderless. vm_compute. reflexivity.
  - apply (clear_class is_space); [assumption | reflexivity | discriminate].
  - apply clear_borderless. vm_compute. reflexivity.
  - apply (clear_class is_space); [assumption | reflexivity | discriminate].
  - apply clear_borderless. vm_compute. reflexivity.
Qed.

Lemma blank_forallb ws : blank ws = true -> forallb is_space ws = true.
Proof. intros H. apply blank_spec in H. tauto. Qed.

Lemma call_args_forallb args :
  call_args args = true -> forallb (is_not rparen) args = true.
Proof. intros H. apply call_args_spec in H. tauto. Qed.

Section IdentifierRuleC.

Variable v : text.
Hypothesis v_ident : forallb is_ident v = true.
Hypothesis v_other : v <> registry_name.

Lemma lit_load_not_at_load_block_of y :
  strip_prefix lit_load
    (str "int result = workflow_registry_load(" ++ v ++ str ");" ++ y) = None.
Proof.
  change lit_load with
    (str "int result = workflow_registry_load(" ++ registry_name ++
     rparen :: str ";").
  rewrite strip_prefix_app_cancel.
  apply registry_name_clash; trivial; reflexivity.
Qed.

Lemma clear_load_block_of ws1 ws2 ws3 args ws4 ws5 x :
  forallb is_space ws1 = true -> forallb is_space ws2 = true ->
  forallb is_space ws3 = true -> forallb (is_not rparen) args = true ->
  forallb is_space ws4 = true -> forallb is_space ws5 = true ->
  clear pattern3 (load_block_of v ws1 ws2 ws3 args ws4 ws5) x.
Proof.
  intros H1 H2 H3 Ha H4 H5. unfold load_block_of, destroy_call.
  rewrite <- !app_assoc.
  apply clear_app; [|apply clear_app; [|apply clear_app; [|apply clear_app;
    [|apply clear_app; [|apply clear_app; [|apply clear_app;
    [|apply clear_app; [|apply clear_app]]]]]]]].
  - apply clear_head.
    + apply never_lit. rewrite <- !app_assoc.
      apply lit_load_not_at_load_block_of.
    + apply clear_borderless. vm_compute. reflexivity.
  - rewrite <- !app_assoc.
    apply (clear_ident (str "int") sp
             (str "result = workflow_registry_load(registry);") _ v rparen);
      trivial; (reflexivity || discriminate).
  - apply clear_borderless. vm_compute. reflexivity.
  - apply (clear_class is_space); [assumption | reflexivity | discriminate].
  - apply clear_borderless. vm_compute. reflexivity.
  - apply (clear_class is_space); [assumption | reflexivity | discriminate].
  - apply clear_borderless. vm_compute. reflexivity.
  - rewrite <- !app_assoc.
    apply (clear_ident (str "int") sp
             (str "result = workflow_registry_load(registry);") _ v rparen);
      trivial; (reflexivity || discriminate).
  - apply clear_borderless. vm_compute. reflexivity.
  - apply clear_load_block_end; assumption.
Qed.

End IdentifierRuleC.

Lemma pattern1_create_rule :
  pattern1 =
  (Opt (Group 1 (Lit lit_load_comment ;; Plus is_space)) ;; create_rule)%re.
Proof. reflexivity. Qed.

Lemma star_none_all p s (k : text -> option result) :
  (forall a b, s = a ++ b -> k b = None) -> star p s k = None.
Proof.
  induction s as [|c s IH]; intros H.
  - apply (H [] []). reflexivity.
  - cbn [star]. rewrite IH.
    + rewrite (H [] (c :: s) eq_refl). destruct (p c); reflexivity.
    + intros a b ->. apply (H (c :: a) b). reflexivity.
Qed.

Lemma plus_none_all p s (k : text -> option result) :
  (forall a b, s = a ++ b -> k b = None) -> plus p s k = None.
Proof.
  intros H. destruct s as [|c s]; [reflexivity|]. cbn [plus].
  destruct (p c); [|reflexivity]. apply star_none_all.
  intros a b ->. apply (H (c :: a) b). reflexivity.
Qed.

(** Rule A can only match where the declaration itself is matched, here
    or after the comment and its white space. *)
Lemma pattern1_never t :
  (forall a b, t = a ++ b -> never create_rule b) -> never pattern1 t.
Proof.
  intros H caps k. rewrite pattern1_create_rule. cbn [rmatch].
  destruct (strip_prefix lit_load_comment t) as [t1|] eqn:E.
  - apply strip_prefix_Some in E. subst t.
    rewrite plus_none_all.
    + apply (H [] _ eq_refl).
    + intros a b ->.
      apply (H (lit_load_comment ++ a) b). rewrite app_assoc. reflexivity.
  - apply (H [] t eq_refl).
Qed.

Lemma never_suffixes_occurs r t :
  (forall a b, t = a ++ b -> never r b) -> occurs r t = false.
Proof.
  induction t as [|c t IH]; intros H.
  - cbn. rewrite (never_match_at r [] (H [] [] eq_refl)). reflexivity.
  - cbn [occurs].
    rewrite (never_match_at r (c :: t) (H [] (c :: t) eq_refl)).
    apply IH. intros a b ->. apply (H (c :: a) b). reflexivity.
Qed.

Section IdentifierRuleA.

Variable v : text.
Hypothesis v_ident : forallb is_ident v = true.
Hypothesis v_other : v <> registry_name.

Lemma lit_create_not_at_declaration_of y :
  strip_prefix lit_create
    (str "workflow_registry_t* " ++ v ++
     str " = workflow_registry_create(" ++ y) = None.
Proof.
  change lit_create with
    (str "workflow_registry_t* " ++ registry_name ++
     sp :: str "= workflow_registry_create(" ++ [dq]).
  rewrite strip_prefix_app_cancel.
  change (str " = workflow_registry_create(" ++ y)
    with (sp :: str "= workflow_registry_create(" ++ y).
  apply registry_name_clash; trivial; reflexivity.
Qed.

Lemma pattern1_not_at_declaration_of arg s :
  match_at pattern1 false (declaration_of v arg ++ s) = None.
Proof.
  unfold match_at, pattern1.
  rewrite rmatch_opt_skip
    by (apply rmatch_group_lit_fail; reflexivity).
  apply rmatch_lit_fail. unfold declaration_of. rewrite <- !app_assoc.
  apply lit_create_not_at_declaration_of.
Qed.

(** The same after the optional comment line. *)
Lemma pattern1_not_at_commented_declaration_of ws arg s :
  blank ws = true ->
  match_at pattern1 false
    (lit_load_comment ++ ws ++ declaration_of v arg ++ s) = None.
Proof.
  intros Hws. apply blank_spec in Hws as [Hne Hws].
  unfold match_at, pattern1. cbn [rmatch].
  rewrite strip_prefix_app.
  rewrite plus_none; [reflexivity | exact Hws | reflexivity |].
  intros a b Ha ->. destruct b as [|w b].
  - cbn [app]. unfold declaration_of. rewrite <- !app_assoc.
    rewrite lit_create_not_at_declaration_of. reflexivity.
  - rewrite <- app_assoc.
    rewrite (strip_prefix_class_clash is_space lit_create (w :: b));
      [reflexivity | reflexivity | discriminate | | discriminate].
    apply (forallb_app_r is_space a). exact Hws.
Qed.

End IdentifierRuleA.

(** * Matches that start before a construct *)

Ltac frame_literal :=
  apply frame_lit; apply apart_borderless; vm_compute; reflexivity.

Ltac frame_space :=
  apply frame_group; apply frame_plus_stops; reflexivity.

Lemma ident_not_dq v :
  forallb is_ident v = true -> forallb (is_not dq) v = true.
Proof.
  induction v as [|c v IH]; [reflexivity|]. cbn [forallb]. intros H.
  apply andb_true_iff in H as [Hc Hv]. rewrite (IH Hv), andb_true_r.
  unfold is_not. destruct (N.eqb_spec c dq) as [->|]; [discriminate|].
  reflexivity.
Qed.

Lemma ident_not_rparen v :
  forallb is_ident v = true -> forallb (is_not rparen) v = true.
Proof.
  induction v as [|c v IH]; [reflexivity|]. cbn [forallb]. intros H.
  apply andb_true_iff in H as [Hc Hv]. rewrite (IH Hv), andb_true_r.
  unfold is_not. destruct (N.eqb_spec c rparen) as [->|]; [discriminate|].
  reflexivity.
Qed.

Lemma space_not_dq ws :
  forallb is_space ws = true -> forallb (is_not dq) ws = true.
Proof.
  induction ws as [|c ws IH]; [reflexivity|]. cbn [forallb]. intros H.
  apply andb_true_iff in H as [Hc Hv]. rewrite (IH Hv), andb_true_r.
  unfold is_not. destruct (N.eqb_spec c dq) as [->|]; [discriminate|].
  reflexivity.
Qed.

Lemma ends_with_app l p : ends_with l (p ++ l) = true.
Proof.
  unfold ends_with, starts_with. rewrite rev_app_distr, strip_prefix_app.
  reflexivity.
Qed.

Lemma strip_prefix_None_before (d : char) (l arg z : text) :
  forallb (is_not d) l = true -> strip_prefix l arg = None ->
  strip_prefix l (arg ++ d :: z) = None.
Proof.
  revert arg. induction l as [|a l IH]; intros arg Hl H; [discriminate|].
  cbn [forallb] in Hl. apply andb_true_iff in Hl as [Ha Hl].
  destruct arg as [|c arg]; cbn [app strip_prefix] in *.
  - unfold is_not in Ha. apply negb_true_iff in Ha. rewrite Ha.
    reflexivity.
  - destruct (a =? c)%N; [apply IH; assumption | reflexivity].
Qed.

Lemma starts_with_false_quote arg z :
  starts_with lit_call_end arg = false ->
  strip_prefix lit_create_end (dq :: arg ++ dq :: z) = None.
Proof.
  unfold starts_with. intros H.
  change lit_create_end with (dq :: lit_call_end).
  cbn [strip_prefix]. rewrite N.eqb_refl.
  apply strip_prefix_None_before; [reflexivity|].
  destruct (strip_prefix lit_call_end arg); [discriminate | reflexivity].
Qed.

Lemma never_lit_strip l t : never (Lit l) t -> strip_prefix l t = None.
Proof.
  intros H. specialize (H [] (fun s c => Some (s, c))). cbn [rmatch] in H.
  destruct (strip_prefix l t); [discriminate | reflexivity].
Qed.

(** Rule A matches where the declaration itself matches, at once or after
    the comment and a run of white space. *)
Lemma pattern1_never_run t :
  never create_rule t ->
  (forall t1, strip_prefix lit_load_comment t = Some t1 ->
     forall a b, t1 = a ++ b -> a <> [] -> forallb is_space a = true ->
     never create_rule b) ->
  never pattern1 t.
Proof.
  intros H0 H caps k. rewrite pattern1_create_rule. cbn [rmatch].
  destruct (strip_prefix lit_load_comment t) as [t1|] eqn:E.
  - rewrite plus_dead; [apply H0|].
    intros h b Et Hne Hh. apply (H t1 eq_refl h b Et Hne Hh).
  - apply H0.
Qed.

Lemma clear_pattern1 pre x :
  clear (Lit lit_load_comment) pre x -> clear create_rule pre x ->
  clear pattern1 pre x.
Proof.
  intros Hc Hr a b E Hb. apply pattern1_never_run.
  - apply (Hr a b E Hb).
  - intros t1 Et.
    pose proof (never_lit_strip _ _ (Hc a b E Hb)) as Hn. congruence.
Qed.

(** ** The constructs with another identifier, anywhere in the input *)

Section OtherIdentifier.

Variable v : text.
Hypothesis v_ident : forallb is_ident v = true.
Hypothesis v_other : v <> registry_name.

(** ** Rule A *)

Lemma never_create_rule_in_argument arg p q suf :
  forallb (is_not dq) arg = true -> ends_with lit_create_open arg = false ->
  arg = p ++ q -> never create_rule (q ++ lit_create_end ++ suf).
Proof.
  intros Ha He ->. apply never_lit.
  destruct (strip_prefix lit_create (q ++ lit_create_end ++ suf))
    as [t|] eqn:E; [|reflexivity].
  exfalso. apply strip_prefix_Some in E.
  change (q ++ dq :: str ");" ++ suf = (lit_create_open ++ [dq]) ++ t) in E.
  rewrite <- app_assoc in E. cbn [app] in E.
  apply split_at_first in E as [E _];
    [| apply (forallb_app_r (is_not dq) p); exact Ha | reflexivity].
  subst q. rewrite ends_with_app in He. discriminate.
Qed.

(** Inside the quoted argument Rule A can only start when the argument
    ends with the rule's own opening text. *)
Lemma pattern1_clear_argument arg suf :
  forallb (is_not dq) arg = true -> ends_with lit_create_open arg = false ->
  clear pattern1 arg (lit_create_end ++ suf).
Proof.
  intros Ha He p q E Hq. apply pattern1_never_run.
  - apply (never_create_rule_in_argument arg p q suf Ha He E).
  - intros t1 Et a b Eab Hne Hsp.
    apply strip_prefix_Some in Et. subst t1.
    assert (Hq' : forallb (is_not dq) q = true)
      by (subst arg; apply (forallb_app_r (is_not dq) p); exact Ha).
    change (q ++ lit_create_end ++ suf) with (q ++ dq :: str ");" ++ suf)
      in Et.
    rewrite app_assoc in Et.
    apply split_run in Et as [h2 [Eq ->]]; [| exact Hq' |].
    + apply (never_create_rule_in_argument arg
               (p ++ lit_load_comment ++ a) h2 suf Ha He).
      rewrite E, Eq, <- !app_assoc. reflexivity.
    + rewrite forallb_app. apply andb_true_iff. split;
        [reflexivity | apply space_not_dq; exact Hsp].
Qed.

Lemma pattern1_never_at_declaration_of arg s :
  never pattern1 (declaration_of v arg ++ s).
Proof.
  apply pattern1_never_run.
  - apply never_lit. unfold declaration_of. rewrite <- !app_assoc.
    apply lit_create_not_at_declaration_of; assumption.
  - intros t1 Et. discriminate.
Qed.

Lemma clear_pattern1_declaration_of arg suf :
  forallb (is_not dq) arg = true -> ends_with lit_create_open arg = false ->
  clear pattern1 (declaration_of v arg) suf.
Proof.
  intros Ha He. unfold declaration_of.
  apply clear_app; [|apply clear_app; [|apply clear_app; [|apply clear_app;
    [|apply clear_app]]]].
  - apply clear_head.
    + rewrite <- !app_assoc.
      pose proof (pattern1_never_at_declaration_of arg suf) as H.
      unfold declaration_of in H. rewrite <- !app_assoc in H. exact H.
    + apply clear_pattern1;
        [apply clear_borderless_end | apply clear_borderless];
        vm_compute; reflexivity.
  - apply clear_pattern1.
    + apply (clear_class_end is_ident);
        [exact v_ident | reflexivity | discriminate].
    + rewrite <- !app_assoc.
      apply (clear_ident (str "workflow_registry_t") 42%N
               (str " registry = workflow_registry_create(" ++ [dq]) _ v sp);
        trivial; (reflexivity || discriminate).
  - apply clear_pattern1;
      [apply clear_borderless_end | apply clear_borderless];
      vm_compute; reflexivity.
  - apply clear_pattern1;
      [apply clear_borderless_end | apply clear_borderless];
      vm_compute; reflexivity.
  - apply pattern1_clear_argument; assumption.
  - apply clear_pattern1;
      [apply clear_borderless_end | apply clear_borderless];
      vm_compute; reflexivity.
Qed.

(** A match of Rule A that starts before the declaration cannot reach into
    it, unless the quoted argument begins with the end of the rule's
    pattern. *)
Lemma frame_pattern1_declaration_of arg suf :
  starts_with lit_call_end arg = false ->
  frame pattern1 (declaration_of v arg ++ suf).
Proof.
  intros Hs. unfold pattern1, declaration_of. rewrite <- !app_assoc.
  apply frame_seq; [|apply frame_seq].
  - apply frame_opt. apply frame_group. apply frame_seq.
    + frame_literal.
    + apply frame_plus_stops. reflexivity.
  - apply frame_lit. apply apart_head.
    + apply lit_create_not_at_declaration_of; assumption.
    + apply apart_borderless. vm_compute. reflexivity.
  - apply frame_plus_cross; [frame_literal|].
    intros h t E Hne Hh. apply never_lit_end.
    rewrite !app_assoc in E. rewrite <- !app_assoc in E.
    change (str "workflow_registry_t* " ++ v ++
            str " = workflow_registry_create(" ++
            dq :: arg ++ lit_create_end ++ suf = h ++ t) in E.
    rewrite 2!app_assoc in E.
    apply split_run in E as [h2 [Eh ->]]; [| | exact Hh].
    + destruct h2 as [|c h2].
      * cbn [app]. unfold lit_create_end at 1.
        change (dq :: arg ++ (dq :: str ");") ++ suf)
          with (dq :: arg ++ dq :: str ");" ++ suf).
        apply starts_with_false_quote. exact Hs.
      * assert (Hc : is_not dq c = true).
        { assert (Hall : forallb (is_not dq) (h ++ c :: h2) = true).
          { rewrite <- Eh. rewrite !forallb_app.
            rewrite (ident_not_dq v v_ident). reflexivity. }
          apply (forallb_app_r (is_not dq) h) in Hall.
          cbn [forallb] in Hall. apply andb_true_iff in Hall. tauto. }
        cbn [app]. unfold lit_create_end. cbn [strip_prefix].
        unfold is_not in Hc. apply negb_true_iff in Hc.
        rewrite N.eqb_sym, Hc. reflexivity.
    + rewrite !forallb_app. rewrite (ident_not_dq v v_ident). reflexivity.
Qed.

Lemma sub_pattern1_around_declaration_of pre arg suf :
  forallb (is_not dq) arg = true ->
  starts_with lit_call_end arg = false ->
  ends_with lit_create_open arg = false ->
  sub pattern1 replacement1 (pre ++ declaration_of v arg ++ suf) =
  sub pattern1 replacement1 pre ++ declaration_of v arg ++
  sub pattern1 replacement1 suf.
Proof.
  intros Ha Hs He. apply sub_around.
  - apply frame_pattern1_declaration_of. exact Hs.
  - apply clear_pattern1_declaration_of; assumption.
  - reflexivity.
Qed.

(** ** Rule B *)

Lemma frame_pattern2_null_check_of ws1 ws2 ws3 suf :
  frame pattern2 (null_check_of v ws1 ws2 ws3 ++ suf).
Proof.
  unfold pattern2, null_check_of. rewrite <- !app_assoc.
  apply frame_seq.
  { apply frame_lit. apply apart_head.
    - apply lit_if_null_not_at_null_check_of; assumption.
    - apply apart_borderless. vm_compute. reflexivity. }
  repeat (apply frame_seq; [first [frame_literal | frame_space]|]).
  frame_literal.
Qed.

(** ** Rule D *)

Lemma frame_pattern4_destroy_call suf :
  frame pattern4 (destroy_call v ++ suf).
Proof.
  unfold pattern4, destroy_call. rewrite <- !app_assoc.
  apply frame_lit. apply apart_head.
  - apply lit_destroy_not_at_destroy_call; assumption.
  - apply apart_borderless. vm_compute. reflexivity.
Qed.

(** ** Rule C *)

(** Right after the load statement comes the test of the result, where a
    match that came through the argument list needs the return statement. *)
Lemma pattern3_never_after_arguments ws1 y :
  forallb is_space ws1 = true ->
  never (Lit lit_call_end ;; Group 4 (Plus is_space) ;;
         Lit lit_return_result ;; Group 5 (Plus is_space) ;;
         Lit lit_close ;; pattern3_tail)%re
    (str ");" ++ ws1 ++ lit_if_result ++ y).
Proof.
  intros H1 caps k. rewrite rmatch_lit. cbn [rmatch].
  apply plus_none; [exact H1 | reflexivity |].
  intros a b _ ->. destruct b as [|w b].
  - reflexivity.
  - rewrite <- app_assoc.
    rewrite (strip_prefix_class_clash is_space lit_return_result (w :: b));
      [reflexivity | reflexivity | discriminate | | discriminate].
    apply (forallb_app_r is_space a). exact H1.
Qed.

Lemma frame_pattern3_load_block_of ws1 ws2 ws3 args ws4 ws5 suf :
  forallb is_space ws1 = true ->
  frame pattern3 (load_block_of v ws1 ws2 ws3 args ws4 ws5 ++ suf).
Proof.
  intros H1. unfold pattern3, load_block_of. rewrite <- !app_assoc.
  apply frame_seq.
  { apply frame_lit. apply apart_head.
    - apply lit_load_not_at_load_block_of; assumption.
    - apply apart_borderless. vm_compute. reflexivity. }
  do 6 (apply frame_seq; [first [frame_literal | frame_space]|]).
  apply frame_plus_cross.
  - repeat (apply frame_seq; [first [frame_literal | frame_space]|]).
    apply frame_seq; [apply frame_opt; apply frame_group; frame_literal|].
    apply frame_seq; [frame_space|].
    apply frame_opt. apply frame_group. frame_literal.
  - intros h t E Hne Hh.
    change (str ");" ++ ws1 ++ lit_if_result ++ ws2 ++ destroy_call v ++
            ws3 ++ lit_set_error ++ args ++ lit_call_end ++ ws4 ++
            lit_return_result ++ ws5 ++ lit_close ++ suf)
      with (rparen :: str ";" ++ ws1 ++ lit_if_result ++ ws2 ++
            destroy_call v ++ ws3 ++ lit_set_error ++ args ++
            lit_call_end ++ ws4 ++ lit_return_result ++ ws5 ++
            lit_close ++ suf) in E.
    rewrite app_assoc in E.
    apply split_run in E as [h2 [Eh ->]]; [| | exact Hh].
    + destruct h2 as [|c h2].
      * apply (pattern3_never_after_arguments ws1 _ H1).
      * assert (Hc : is_not rparen c = true).
        { assert (Hall : forallb (is_not rparen) (h ++ c :: h2) = true).
          { rewrite <- Eh. rewrite forallb_app.
            rewrite (ident_not_rparen v v_ident). reflexivity. }
          apply (forallb_app_r (is_not rparen) h) in Hall.
          cbn [forallb] in Hall. apply andb_true_iff in Hall. tauto. }
        apply never_lit. cbn [app].
        change lit_call_end with (rparen :: str ";"). cbn [strip_prefix].
        unfold is_not in Hc. apply negb_true_iff in Hc.
        rewrite N.eqb_sym, Hc. reflexivity.
    + rewrite forallb_app. rewrite (ident_not_rparen v v_ident).
      reflexivity.
Qed.

End OtherIdentifier.

(** * The rules match the name [registry] only *)

(** C9 (as the code has it).  With the variable spelled by any identifier
    other than [registry], no rule matches at the construct it otherwise
    rewrites: Rule A not at the declaration, with or without the comment
    line before it, Rule B not at the null check, Rule C not at the load
    block, Rule D not at the destroy call.  Rules B, C and D leave the
    construct unchanged wherever it stands in the input: the text before it
    and the text after it are rewritten as they are on their own.  Rule A
    leaves the declaration unchanged in the same way provided its quoted
    argument neither begins with [);] nor ends with the opening text of the
    rule's own pattern. *)
Theorem rules_match_only_registry (v : text) :
  forallb is_ident v = true -> v <> registry_name ->
  (forall arg s,
      match_at pattern1 false (declaration_of v arg ++ s) = None) /\
  (forall ws arg s,
      blank ws = true ->
      match_at pattern1 false
        (lit_load_comment ++ ws ++ declaration_of v arg ++ s) = None) /\
  (forall ws1 ws2 ws3 s,
      match_at pattern2 false (null_check_of v ws1 ws2 ws3 ++ s) = None) /\
  (forall ws1 ws2 ws3 args ws4 ws5 s,
      match_at pattern3 false
        (load_block_of v ws1 ws2 ws3 args ws4 ws5 ++ s) = None) /\
  (forall s, match_at pattern4 false (destroy_call v ++ s) = None) /\
  (forall pre arg suf,
      forallb (is_not dq) arg = true ->
      starts_with lit_call_end arg = false ->
      ends_with lit_create_open arg = false ->
      sub pattern1 replacement1 (pre ++ declaration_of v arg ++ suf) =
      sub pattern1 replacement1 pre ++ declaration_of v arg ++
      sub pattern1 replacement1 suf) /\
  (forall pre ws1 ws2 ws3 suf,
      blank ws1 = true -> blank ws2 = true -> blank ws3 = true ->
      sub pattern2 replacement2 (pre ++ null_check_of v ws1 ws2 ws3 ++ suf) =
      sub pattern2 replacement2 pre ++ null_check_of v ws1 ws2 ws3 ++
      sub pattern2 replacement2 suf) /\
  (forall pre ws1 ws2 ws3 args ws4 ws5 suf,
      blank ws1 = true -> blank ws2 = true -> blank ws3 = true ->
      call_args args = true -> blank ws4 = true -> blank ws5 = true ->
      sub pattern3 replacement3
        (pre ++ load_block_of v ws1 ws2 ws3 args ws4 ws5 ++ suf) =
      sub pattern3 replacement3 pre ++
      load_block_of v ws1 ws2 ws3 args ws4 ws5 ++
      sub pattern3 replacement3 suf) /\
  (forall pre suf,
      sub pattern4 replacement4 (pre ++ destroy_call v ++ suf) =
      sub pattern4 replacement4 pre ++ destroy_call v ++
      sub pattern4 replacement4 suf).
Proof.
  intros Hv Hne. repeat split.
  - intros arg s. apply pattern1_not_at_declaration_of; assumption.
  - intros ws arg s Hws.
    apply pattern1_not_at_commented_declaration_of; assumption.
  - intros ws1 ws2 ws3 s. apply never_match_at. apply never_lit.
    unfold null_check_of. rewrite <- !app_assoc.
    apply lit_if_null_not_at_null_check_of; assumption.
  - intros ws1 ws2 ws3 args ws4 ws5 s. apply never_match_at.
    apply never_lit. unfold load_block_of. rewrite <- !app_assoc.
    apply lit_load_not_at_load_block_of; assumption.
  - intros s. apply never_match_at. apply never_lit_end.
    unfold destroy_call. rewrite <- !app_assoc.
    apply lit_destroy_not_at_destroy_call; assumption.
  - intros pre arg suf Ha Hs He.
    apply sub_pattern1_around_declaration_of; assumption.
  - intros pre ws1 ws2 ws3 suf H1 H2 H3. apply sub_around.
    + apply frame_pattern2_null_check_of; assumption.
    + apply clear_null_check_of; auto using blank_forallb.
    + reflexivity.
  - intros pre ws1 ws2 ws3 args ws4 ws5 suf H1 H2 H3 Ha H4 H5.
    apply sub_around.
    + apply frame_pattern3_load_block_of; auto using blank_forallb.
    + apply clear_load_block_of;
        auto using blank_forallb, call_args_forallb.
    + reflexivity.
  - intros pre suf. apply sub_around.
    + apply frame_pattern4_destroy_call; assumption.
    + apply clear_destroy_call; assumption.
    + reflexivity.
Qed.

Lemma rules_match_only_registry_witness :
  match_at pattern1 false
    (declaration_of other_name (str "path") ++ sample_suf) = None /\
  match_at pattern1 false
    (lit_load_comment ++ span4 ++
     declaration_of other_name (str "path") ++ sample_suf) = None /\
  match_at pattern2 false
    (null_check_of other_name span8 span8 span4 ++ sample_suf) = None /\
  match_at pattern3 false
    (load_block_of other_name span4 span8 span8 sample_args span8 span4 ++
     sample_suf) = None /\
  match_at pattern4 false (destroy_call other_name ++ sample_suf) = None /\
  sub pattern1 replacement1
    (sample_pre ++ declaration_of other_name (str "path") ++ sample_suf) =
  sub pattern1 replacement1 sample_pre ++
  declaration_of other_name (str "path") ++
  sub pattern1 replacement1 sample_suf /\
  sub pattern2 replacement2
    (sample_pre ++ null_check_of other_name span8 span8 span4 ++
     sample_suf) =
  sub pattern2 replacement2 sample_pre ++
  null_check_of other_name span8 span8 span4 ++
  sub pattern2 replacement2 sample_suf /\
  sub pattern3 replacement3
    (sample_pre ++
     load_block_of other_name span4 span8 span8 sample_args span8 span4 ++
     sample_suf) =
  sub pattern3 replacement3 sample_pre ++
  load_block_of other_name span4 span8 span8 sample_args span8 span4 ++
  sub pattern3 replacement3 sample_suf /\
  sub pattern4 replacement4
    (sample_pre ++ destroy_call other_name ++ sample_suf) =
  sub pattern4 replacement4 sample_pre ++ destroy_call other_name ++
  sub pattern4 replacement4 sample_suf.
Proof.
  destruct (rules_match_only_registry other_name)
    as [H1 [H2 [M2 [M3 [M4 [H3 [H4 [H5 H6]]]]]]]];
    [reflexivity | discriminate |].
  split; [apply H1|]. split; [apply H2; reflexivity|].
  split; [apply M2|]. split; [apply M3|]. split; [apply M4|].
  split; [apply H3; reflexivity|]. split; [apply H4; reflexivity|].
  split; [apply H5; reflexivity|]. apply H6.
Defined.

(** C9 as stated fails for Rule A, whose class between the quotes runs up
    to the next double quote whatever it passes.  When the quoted argument
    of the [reg] declaration ends with the opening text of Rule A's
    pattern, a match starts inside the argument and, with the end of the
    pattern found further on, rewrites the end of the declaration; when
    the argument begins with [);], a match that started before the
    declaration ends inside the argument and rewrites the beginning of the
    declaration. *)
Lemma rule_a_rewrites_part_of_other_declaration :
  forallb is_ident other_name = true /\ other_name <> registry_name /\
  forallb (is_not dq) lit_create_open = true /\
  forallb (is_not dq) lit_call_end = true /\
  sub pattern1 replacement1
    (declaration_of other_name lit_create_open ++ puts_call_end) =
  str "workflow_registry_t* reg = workflow_registry_create(" ++ [dq] ++
  replacement1_text ++ dq :: str ");" /\
  migrate_endpoint
    (declaration_of other_name lit_create_open ++ puts_call_end) =
  str "workflow_registry_t* reg = workflow_registry_create(" ++ [dq] ++
  replacement1_text ++ dq :: str ");" /\
  sub pattern1 replacement1
    (declaration_of other_name lit_create_open ++ puts_call_end) <>
  declaration_of other_name lit_create_open ++
  sub pattern1 replacement1 puts_call_end /\
  sub pattern1 replacement1
    (puts_create_open ++ declaration_of other_name lit_call_end) =
  str "puts(" ++ [dq] ++ replacement1_text ++ dq :: str ");" /\
  migrate_endpoint
    (puts_create_open ++ declaration_of other_name lit_call_end) =
  str "puts(" ++ [dq] ++ replacement1_text ++ dq :: str ");" /\
  sub pattern1 replacement1
    (puts_create_open ++ declaration_of other_name lit_call_end) <>
  sub pattern1 replacement1 puts_create_open ++
  declaration_of other_name lit_call_end.
Proof.
  split; [reflexivity|]. split; [discriminate|].
  split; [reflexivity|]. split; [reflexivity|].
  assert (E1 : sub pattern1 replacement1
                 (declaration_of other_name lit_create_open ++
                  puts_call_end) =
               str "workflow_registry_t* reg = workflow_registry_create(" ++
               [dq] ++ replacement1_text ++ dq :: str ");")
    by (vm_compute; reflexivity).
  assert (E2 : sub pattern1 replacement1
                 (puts_create_open ++
                  declaration_of other_name lit_call_end) =
               str "puts(" ++ [dq] ++ replacement1_text ++ dq :: str ");")
    by (vm_compute; reflexivity).
  split; [exact E1|]. split; [vm_compute; reflexivity|].
  split; [rewrite E1; vm_compute; discriminate|].
  split; [exact E2|]. split; [vm_compute; reflexivity|].
  rewrite E2. vm_compute. discriminate.
Qed.

(** * The load block without its optional parts *)

(** With fewer than two characters of white space after the brace the
    pattern fails at the block, whatever precedes it in a larger pattern. *)
Lemma pattern3_never_at_short_block ws1 ws2 ws3 args ws4 ws5 ws rest :
  blank ws1 = true -> blank ws2 = true -> blank ws3 = true ->
  call_args args = true -> blank ws4 = true -> blank ws5 = true ->
  length ws < 2 -> forallb is_space ws = true ->
  stops is_space rest = true -> no_optional_part rest = true ->
  never pattern3 (load_block ws1 ws2 ws3 args ws4 ws5 ++ ws ++ rest).
Proof.
  intros H1 H2 H3 Ha H4 H5 Hlen Hws Hrest Hopt caps k.
  rewrite pattern3_through_block_from by assumption.
  apply pattern3_tail_short; assumption.
Qed.

Lemma clear_short_load_block ws1 ws2 ws3 args ws4 ws5 ws rest :
  blank ws1 = true -> blank ws2 = true -> blank ws3 = true ->
  call_args args = true -> blank ws4 = true -> blank ws5 = true ->
  length ws < 2 -> forallb is_space ws = true ->
  stops is_space rest = true -> no_optional_part rest = true ->
  clear pattern3 (load_block ws1 ws2 ws3 args ws4 ws5 ++ ws) rest.
Proof.
  intros H1 H2 H3 Ha H4 H5 Hlen Hws Hrest Hopt.
  pose proof (pattern3_never_at_short_block ws1 ws2 ws3 args ws4 ws5 ws rest
                H1 H2 H3 Ha H4 H5 Hlen Hws Hrest Hopt) as Hnever.
  apply blank_forallb in H1, H2, H3, H4, H5. apply call_args_forallb in Ha.
  apply clear_app;
    [|apply (clear_class is_space); [assumption|reflexivity|discriminate]].
  unfold load_block in *.
  apply clear_app; [|apply clear_app; [|apply clear_app; [|apply clear_app;
    [|apply clear_app]]]].
  - apply clear_head.
    + intros caps k. rewrite <- !app_assoc. rewrite <- !app_assoc in Hnever.
      apply Hnever.
    + apply clear_borderless. vm_compute. reflexivity.
  - apply (clear_class is_space); [assumption | reflexivity | discriminate].
  - apply clear_borderless. vm_compute. reflexivity.
  - apply (clear_class is_space); [assumption | reflexivity | discriminate].
  - apply clear_borderless. vm_compute. reflexivity.
  - apply clear_load_block_end; assumption.
Qed.

(** C10. The load block with neither optional part after it, followed by
    the run [ws] of white space and then by [rest], which starts outside
    white space.  Rule C matches at the block exactly when [ws] has two
    characters at least; then the deletion takes the block and the whole of
    [ws], up to the next character that is not white space; otherwise the
    block and [ws] are copied unchanged. *)
Theorem rule_c_without_optional_parts
  (ws1 ws2 ws3 args ws4 ws5 ws rest : text) :
  blank ws1 = true -> blank ws2 = true -> blank ws3 = true ->
  call_args args = true -> blank ws4 = true -> blank ws5 = true ->
  forallb is_space ws = true -> stops is_space rest = true ->
  no_optional_part rest = true ->
  (match_at pattern3 false
     (load_block ws1 ws2 ws3 args ws4 ws5 ++ ws ++ rest) <> None
   <-> 2 <= length ws) /\
  (2 <= length ws ->
   match_at pattern3 false
     (load_block ws1 ws2 ws3 args ws4 ws5 ++ ws ++ rest) =
   Some (rest, (8, [last ws sp]) :: (6, removelast ws) ::
               load_block_captures ws1 ws2 ws3 ws4 ws5) /\
   sub pattern3 replacement3
     (load_block ws1 ws2 ws3 args ws4 ws5 ++ ws ++ rest) =
   sub pattern3 replacement3 rest) /\
  (length ws < 2 ->
   sub pattern3 replacement3
     (load_block ws1 ws2 ws3 args ws4 ws5 ++ ws ++ rest) =
   load_block ws1 ws2 ws3 args ws4 ws5 ++ ws ++
   sub pattern3 replacement3 rest).
Proof.
  intros H1 H2 H3 Ha H4 H5 Hws Hrest Hopt.
  assert (Hyes : 2 <= length ws ->
    match_at pattern3 false
      (load_block ws1 ws2 ws3 args ws4 ws5 ++ ws ++ rest) =
    Some (rest, (8, [last ws sp]) :: (6, removelast ws) ::
                load_block_captures ws1 ws2 ws3 ws4 ws5)).
  { intros Hlen. destruct (split_last ws Hlen) as [ws' [w [-> Hne]]].
    rewrite last_last, removelast_last.
    rewrite forallb_app in Hws. apply andb_true_iff in Hws as [Hws' Hw].
    cbn [forallb] in Hw. rewrite andb_true_r in Hw.
    unfold match_at. rewrite pattern3_through_block by assumption.
    rewrite <- app_assoc. cbn [app].
    apply pattern3_tail_bare; trivial. }
  split; [split|split].
  - intros Hm. destruct (le_lt_dec 2 (length ws)) as [|Hlt]; [assumption|].
    exfalso. apply Hm. apply never_match_at.
    apply pattern3_never_at_short_block; assumption.
  - intros Hlen. rewrite (Hyes Hlen). discriminate.
  - intros Hlen. split; [exact (Hyes Hlen)|].
    rewrite app_assoc.
    rewrite (sub_match pattern3 replacement3 _ rest
               ((8, [last ws sp]) :: (6, removelast ws) ::
                load_block_captures ws1 ws2 ws3 ws4 ws5)).
    + reflexivity.
    + apply load_block_not_nil.
    + rewrite <- app_assoc. exact (Hyes Hlen).
  - intros Hlen. rewrite !app_assoc. rewrite <- app_assoc.
    rewrite app_assoc. apply clear_sub.
    apply clear_short_load_block; assumption.
Qed.

Lemma rule_c_without_optional_parts_witness :
  (match_at pattern3 false
     (load_block span4 span8 span8 sample_args span8 span4 ++
      span4 ++ sample_rest) <> None
   <-> 2 <= length span4) /\
  (2 <= length span4 ->
   match_at pattern3 false
     (load_block span4 span8 span8 sample_args span8 span4 ++
      span4 ++ sample_rest) =
   Some (sample_rest,
         (8, [last span4 sp]) :: (6, removelast span4) ::
         load_block_captures span4 span8 span8 span8 span4) /\
   sub pattern3 replacement3
     (load_block span4 span8 span8 sample_args span8 span4 ++
      span4 ++ sample_rest) =
   sub pattern3 replacement3 sample_rest) /\
  (length span4 < 2 ->
   sub pattern3 replacement3
     (load_block span4 span8 span8 sample_args span8 span4 ++
      span4 ++ sample_rest) =
   load_block span4 span8 span8 sample_args span8 span4 ++ span4 ++
   sub pattern3 replacement3 sample_rest).
Proof.
  apply (rule_c_without_optional_parts
           span4 span8 span8 sample_args span8 span4 span4 sample_rest);
    vm_compute; reflexivity.
Defined.

(** * The entry point *)

Lemma text_eqb_refl a : text_eqb a a = true.
Proof.
  induction a as [|x a IH]; [reflexivity|]. cbn. rewrite N.eqb_refl.
  exact IH.
Qed.

Lemma text_eqb_eq a b : text_eqb a b = true -> a = b.
Proof.
  revert b. induction a as [|x a IH]; intros [|y b] H;
    try discriminate; [reflexivity|].
  cbn in H. apply andb_true_iff in H as [Hx H].
  apply N.eqb_eq in Hx. subst y. f_equal. apply IH. exact H.
Qed.

Lemma update_same fs p content : update fs p content p = Some content.
Proof. unfold update. rewrite text_eqb_refl. reflexivity. Qed.

Lemma update_other fs p content q :
  q <> p -> update fs p content q = fs q.
Proof.
  intros H. unfold update. destruct (text_eqb q p) eqn:E; [|reflexivity].
  apply text_eqb_eq in E. congruence.
Qed.

(** C7. Invoked with another number of arguments than one, the entry point
    prints the line [Usage: <program> <file>] on standard output and leaves
    through [sys.exit(1)]: status 1, no file read, no file written, every
    file as before.  Invoked with one path that can be read and written, it
    reads the file, writes the migrated text back to the same path and to
    no other, prints the line [Migrated <path>] and ends normally, with
    status 0. *)
Theorem main_usage_or_migrate
  (prog : text) (args : list text) (st : state) :
  (length args <> 1 ->
   fst (main (prog :: args) st) = Exit 1 /\
   exit_status (fst (main (prog :: args) st)) = 1 /\
   stdout (snd (main (prog :: args) st)) =
   stdout st ++ [str "Usage: " ++ prog ++ str " <file>"] /\
   (forall q, files (snd (main (prog :: args) st)) q = files st q) /\
   (forall q, writable (snd (main (prog :: args) st)) q = writable st q) /\
   file_ops (snd (main (prog :: args) st)) = file_ops st) /\
  (forall filepath content,
      args = [filepath] ->
      files st filepath = Some content ->
      writable st filepath = true ->
      fst (main (prog :: args) st) = Val tt /\
      exit_status (fst (main (prog :: args) st)) = 0 /\
      files (snd (main (prog :: args) st)) filepath =
      Some (migrate_endpoint content) /\
      (forall q, q <> filepath ->
                 files (snd (main (prog :: args) st)) q = files st q) /\
      (forall q, writable (snd (main (prog :: args) st)) q = writable st q) /\
      stdout (snd (main (prog :: args) st)) =
      stdout st ++ [str "Migrated " ++ filepath] /\
      file_ops (snd (main (prog :: args) st)) =
      file_ops st ++
      [OpRead filepath; OpWrite filepath (migrate_endpoint content)]).
Proof.
  split.
  - intros Hlen.
    assert (E : main (prog :: args) st =
                (Exit 1,
                 State (files st) (writable st)
                   (stdout st ++ [str "Usage: " ++ prog ++ str " <file>"])
                   (file_ops st))).
    { destruct args as [|a [|b args]].
      + reflexivity.
      + cbn in Hlen. congruence.
      + reflexivity. }
    rewrite E. repeat split.
  - intros filepath content -> Hfile Hw.
    assert (E : main [prog; filepath] st =
      (Val tt,
       State (update (files st) filepath (migrate_endpoint content))
         (writable st)
         (stdout st ++ [str "Migrated " ++ filepath])
         (file_ops st ++
          [OpRead filepath;
           OpWrite filepath (migrate_endpoint content)]))).
    { unfold main, bind, index, read_file, write_file, print.
      cbn [length Nat.eqb negb nth_error]. rewrite Hfile.
      cbn [writable files stdout file_ops]. rewrite Hw.
      cbn [writable files stdout file_ops]. rewrite <- app_assoc.
      reflexivity. }
    rewrite E. cbn [fst snd files writable stdout file_ops exit_status].
    split; [reflexivity|]. split; [reflexivity|].
    split; [apply update_same|].
    split; [intros q Hq; apply update_other; exact Hq|].
    repeat split.
Qed.

Lemma main_usage_or_migrate_witness :
  (fst (main [str "migrate_registry.py"; sample_path] sample_state) =
   Val tt /\
   files (snd (main [str "migrate_registry.py"; sample_path] sample_state))
     sample_path = Some minimal_document_migrated /\
   stdout (snd (main [str "migrate_registry.py"; sample_path] sample_state)) =
   [str "Migrated api_http.c"]) /\
  (fst (main [str "migrate_registry.py"] sample_state) = Exit 1 /\
   stdout (snd (main [str "migrate_registry.py"] sample_state)) =
   [str "Usage: migrate_registry.py <file>"] /\
   file_ops (snd (main [str "migrate_registry.py"] sample_state)) = []).
Proof.
  split.
  - destruct (main_usage_or_migrate (str "migrate_registry.py")
                [sample_path] sample_state) as [_ H].
    destruct (H sample_path minimal_document eq_refl eq_refl eq_refl)
      as [E1 [_ [E2 [_ [_ [E3 _]]]]]].
    split; [exact E1|]. split; [|exact E3].
    transitivity (Some (migrate_endpoint minimal_document));
      [exact E2 | vm_compute; reflexivity].
  - destruct (main_usage_or_migrate (str "migrate_registry.py")
                [] sample_state) as [H _].
    destruct H as [E1 [_ [E2 [_ [_ E3]]]]]; [cbn; lia|].
    split; [exact E1|]. split; [exact E2|]. exact E3.
Defined.

(** * A literal pattern with a literal replacement *)

(** Rule D is a literal replaced by a literal.  What follows holds for
    every such rule whose literal does not overlap itself, has no border
    inside the replacement, and does not contain the first character of
    the replacement. *)

Section LiteralRule.

Variables (L R : text).

Lemma match_lit_some s t :
  strip_prefix L s = Some t -> match_at (Lit L) false s = Some (t, []).
Proof. intros H. unfold match_at. cbn [rmatch]. rewrite H. reflexivity. Qed.

Lemma match_lit_none s :
  strip_prefix L s = None -> match_at (Lit L) false s = None.
Proof. intros H. unfold match_at. cbn [rmatch]. rewrite H. reflexivity. Qed.

Lemma strip_prefix_app_split (l a y t : text) :
  strip_prefix l (a ++ y) = Some t ->
  (exists a', a = l ++ a' /\ t = a' ++ y) \/
  (exists t', l = a ++ t' /\ y = t' ++ t).
Proof.
  revert a. induction l as [|x l IH]; intros a H.
  - left. exists a. cbn in H. injection H as <-. split; reflexivity.
  - destruct a as [|c a].
    + right. exists (x :: l). split; [reflexivity|].
      apply strip_prefix_Some. exact H.
    + cbn in H. destruct (N.eqb_spec x c) as [->|]; [|discriminate].
      destruct (IH a H) as [[a' [-> ->]]|[t' [-> ->]]].
      * left. exists a'. split; reflexivity.
      * right. exists t'. split; reflexivity.
Qed.

Lemma strip_prefix_None_app (l a y : text) :
  strip_prefix l (a ++ y) = None -> strip_prefix l a = None.
Proof.
  revert a. induction l as [|x l IH]; intros a H; [discriminate|].
  destruct a as [|c a]; [reflexivity|]. cbn in *.
  destruct (x =? c)%N; [apply IH; exact H | reflexivity].
Qed.

Lemma occurs_app_clear r pre x :
  clear r pre x -> occurs r x = false -> occurs r (pre ++ x) = false.
Proof.
  induction pre as [|c pre IH]; intros Hc Hx; [exact Hx|].
  assert (E : match_at r false (c :: pre ++ x) = None).
  { apply never_match_at.
    apply (Hc [] (c :: pre)); [reflexivity | discriminate]. }
  cbn [app occurs]. rewrite E.
  apply IH; [|exact Hx]. intros a b -> Hb.
  apply (Hc (c :: a) b); [reflexivity | exact Hb].
Qed.

Hypothesis L_not_nil : L <> [].

Lemma rule_sub_nil : literal_sub L R [] = [].
Proof.
  unfold literal_sub. apply sub_nil. apply match_lit_none. destruct L; [congruence|reflexivity].
Qed.

Lemma rule_sub_here s : literal_sub L R (L ++ s) = R ++ literal_sub L R s.
Proof.
  unfold literal_sub. rewrite (sub_match (Lit L) [TLit R] L s []).
  - cbn. rewrite app_nil_r. reflexivity.
  - exact L_not_nil.
  - apply match_lit_some. apply strip_prefix_app.
Qed.

Lemma rule_sub_exact : literal_sub L R L = R.
Proof.
  rewrite <- (app_nil_r L) at 2. rewrite rule_sub_here, rule_sub_nil.
  apply app_nil_r.
Qed.

Lemma rule_sub_copy c s :
  strip_prefix L (c :: s) = None -> literal_sub L R (c :: s) = c :: literal_sub L R s.
Proof.
  intros H. unfold literal_sub. apply sub_no_match. apply match_lit_none.
  exact H.
Qed.

Hypothesis L_borderless : borderless L (tl L) = true.

(** The rule acts on each occurrence independently of its context. *)
Lemma rule_sub_app_bounded n :
  forall a b, length a <= n ->
  literal_sub L R (a ++ L ++ b) = literal_sub L R a ++ R ++ literal_sub L R b.
Proof.
  induction n as [|n IH]; intros a b Hlen.
  - destruct a; [|cbn in Hlen; lia]. cbn [app].
    rewrite rule_sub_here, rule_sub_nil. reflexivity.
  - destruct a as [|c a].
    { cbn [app]. rewrite rule_sub_here, rule_sub_nil. reflexivity. }
    destruct (strip_prefix L ((c :: a) ++ L ++ b)) as [t|] eqn:E.
    + destruct (strip_prefix_app_split L (c :: a) (L ++ b) t E)
        as [[a' [Ea ->]]|[t' [El Et]]].
      * rewrite Ea, <- app_assoc, !rule_sub_here, <- app_assoc.
        f_equal. apply IH.
        assert (Hl : length (c :: a) = length L + length a')
          by (rewrite Ea, length_app; reflexivity).
        destruct L; [congruence|]. cbn in Hl, Hlen. lia.
      * destruct t' as [|x t'].
        { rewrite app_nil_r in El. rewrite <- El.
          rewrite !rule_sub_here, rule_sub_exact. reflexivity. }
        exfalso.
        assert (Hb : strip_prefix L ((x :: t') ++ t) = None).
        { apply (borderless_strip L (tl L) t a (x :: t')).
          - exact L_borderless.
          - rewrite El. reflexivity.
          - discriminate. }
        rewrite <- Et, strip_prefix_app in Hb. discriminate.
    + cbn [app] in *. rewrite rule_sub_copy by exact E.
      rewrite rule_sub_copy
        by (apply (strip_prefix_None_app L (c :: a) (L ++ b)); exact E).
      cbn [app]. f_equal. apply IH. cbn in Hlen. lia.
Qed.

Lemma rule_sub_app a b :
  literal_sub L R (a ++ L ++ b) = literal_sub L R a ++ R ++ literal_sub L R b.
Proof. apply (rule_sub_app_bounded (length a)). lia. Qed.

Hypothesis R_borderless : borderless L R = true.
Hypothesis R_head_absent :
  match R with
  | [] => False
  | r0 :: _ => forallb (is_not r0) L = true
  end.

(** Copying up to the next replacement cannot complete the literal. *)
Lemma rule_sub_keeps_mismatch s :
  forall pre K, L = pre ++ K -> K <> [] ->
  strip_prefix K s = None -> strip_prefix K (literal_sub L R s) = None.
Proof.
  induction s as [|c s IH]; intros pre K EL HK H.
  - rewrite rule_sub_nil. exact H.
  - destruct K as [|k0 K]; [congruence|].
    destruct (strip_prefix L (c :: s)) as [t|] eqn:E.
    + apply strip_prefix_Some in E. rewrite E, rule_sub_here.
      destruct R as [|r0 R']; [contradiction|]. cbn [app strip_prefix].
      rewrite EL, forallb_app in R_head_absent.
      apply andb_true_iff in R_head_absent as [_ Hk].
      cbn [forallb] in Hk. apply andb_true_iff in Hk as [Hk _].
      unfold is_not in Hk. apply negb_true_iff in Hk. rewrite Hk.
      reflexivity.
    + rewrite rule_sub_copy by exact E. cbn [strip_prefix] in *.
      destruct (k0 =? c)%N; [|reflexivity].
      destruct K as [|k1 K]; [discriminate|].
      apply (IH (pre ++ [k0]) (k1 :: K)).
      * rewrite <- app_assoc. exact EL.
      * discriminate.
      * exact H.
Qed.

Lemma occurs_lit_nil : occurs (Lit L) [] = false.
Proof.
  cbn [occurs]. rewrite match_lit_none; [reflexivity|].
  destruct L; [congruence | reflexivity].
Qed.

(** No occurrence of the literal is left in the result. *)
Lemma rule_sub_clean_bounded n :
  forall s, length s <= n -> occurs (Lit L) (literal_sub L R s) = false.
Proof.
  induction n as [|n IH]; intros s Hlen.
  - destruct s; [|cbn in Hlen; lia]. rewrite rule_sub_nil.
    apply occurs_lit_nil.
  - destruct s as [|c s].
    { rewrite rule_sub_nil. apply occurs_lit_nil. }
    destruct (strip_prefix L (c :: s)) as [t|] eqn:E.
    + apply strip_prefix_Some in E. rewrite E, rule_sub_here.
      apply occurs_app_clear.
      * apply clear_borderless_end. exact R_borderless.
      * apply IH.
        assert (Hl : length (c :: s) = length L + length t)
          by (rewrite E, length_app; reflexivity).
        destruct L; [congruence|]. cbn in Hl, Hlen. lia.
    + pose proof (rule_sub_keeps_mismatch (c :: s) [] L eq_refl
                    L_not_nil E) as Hm.
      rewrite rule_sub_copy in * by exact E.
      cbn [occurs]. rewrite (match_lit_none _ Hm).
      apply IH. cbn in Hlen. lia.
Qed.

Lemma rule_sub_clean s : occurs (Lit L) (literal_sub L R s) = false.
Proof. apply (rule_sub_clean_bounded (length s)). lia. Qed.

End LiteralRule.

(** * Rule D on every destroy call *)

(** Rule D rewrites a destroy call wherever it stands: the text before
    the call and the text after it are processed independently of it. *)
Theorem rule_d_acts_on_every_call (a b : text) :
  sub pattern4 replacement4 (a ++ lit_destroy ++ b) =
  sub pattern4 replacement4 a ++ lit_unlock ++ sub pattern4 replacement4 b.
Proof.
  apply (rule_sub_app lit_destroy lit_unlock);
    [discriminate | vm_compute; reflexivity].
Qed.

(** Whatever the input, the migrated text holds no destroy call on
    [registry] any more. *)
Theorem migrate_leaves_no_destroy_call (content : text) :
  occurs pattern4 (migrate_endpoint content) = false.
Proof.
  unfold migrate_endpoint.
  apply (rule_sub_clean lit_destroy lit_unlock);
    [discriminate | | | ]; vm_compute; reflexivity.
Qed.

(** * Rule A after the comment line *)




(** * Rule C with one optional part *)

Lemma pattern3_tail_after_run :
  pattern3_tail = (Group 6 (Plus is_space) ;; pattern3_after_run)%re.
Proof. reflexivity. Qed.

(** Right after the whole run of white space the rest of the pattern
    fails: its second group finds no white space. *)
Lemma pattern3_after_run_none rest caps k :
  stops is_space rest = true -> comment_unusable rest = true ->
  rmatch pattern3_after_run rest caps k = None.
Proof.
  intros Hrest Hc. unfold pattern3_after_run, comment_unusable in *.
  cbn [rmatch].
  destruct (strip_prefix lit_cleanup_comment rest) as [u|].
  - rewrite (plus_stops is_space u) by exact Hc.
    apply plus_stops. exact Hrest.
  - apply plus_stops. exact Hrest.
Qed.

(** With one character of white space given back, the second group takes
    it and the pattern goes on with the optional cleanup call. *)
Lemma pattern3_after_run_one w rest caps k :
  is_space w = true -> stops is_space rest = true ->
  rmatch pattern3_after_run (w :: rest) caps k =
  rmatch (Opt (Group 9 (Lit lit_cleanup))) rest ((8, [w]) :: caps) k.
Proof.
  intros Hw Hrest. unfold pattern3_after_run. cbn [rmatch].
  assert (Ec : strip_prefix lit_cleanup_comment (w :: rest) = None).
  { apply (strip_prefix_class_clash is_space lit_cleanup_comment [w] rest);
      [reflexivity | discriminate | | discriminate].
    cbn. rewrite Hw. reflexivity. }
  rewrite Ec. cbn [plus]. rewrite Hw. rewrite star_stops by exact Hrest.
  change (w :: rest) with ([w] ++ rest). rewrite firstn_matched.
  reflexivity.
Qed.

Lemma pattern3_tail_gives_back ws w rest caps k x :
  ws <> [] -> forallb is_space ws = true -> is_space w = true ->
  stops is_space rest = true -> comment_unusable rest = true ->
  rmatch (Opt (Group 9 (Lit lit_cleanup))) rest
    ((8, [w]) :: (6, ws) :: caps) k = Some x ->
  rmatch pattern3_tail (ws ++ w :: rest) caps k = Some x.
Proof.
  intros Hne Hws Hw Hrest Hc Hk.
  destruct ws as [|a ws]; [congruence|].
  cbn [forallb] in Hws. apply andb_true_iff in Hws as [Ha Hws].
  rewrite pattern3_tail_after_run. cbn [rmatch plus app]. rewrite Ha.
  apply star_give_back; trivial.
  - apply pattern3_after_run_none; assumption.
  - rewrite pattern3_after_run_one by assumption.
    change (a :: ws ++ w :: rest) with ((a :: ws) ++ w :: rest).
    rewrite firstn_matched. exact Hk.
Qed.

Lemma pattern3_tail_too_short ws rest caps k :
  length ws < 2 -> forallb is_space ws = true ->
  stops is_space rest = true -> comment_unusable rest = true ->
  rmatch pattern3_tail (ws ++ rest) caps k = None.
Proof.
  intros Hlen Hws Hrest Hc. rewrite pattern3_tail_after_run.
  cbn [rmatch]. destruct ws as [|w ws].
  - apply plus_stops. exact Hrest.
  - destruct ws as [|w' ws]; [|cbn in Hlen; lia].
    cbn [forallb] in Hws. apply andb_true_iff in Hws as [Hw _].
    cbn [plus app]. rewrite Hw. rewrite star_stops by exact Hrest.
    apply pattern3_after_run_none; assumption.
Qed.

Lemma rmatch_opt_group_lit_end_skip n l s caps k :
  strip_prefix l s = None ->
  rmatch (Opt (Group n (Lit l))) s caps k = k s caps.
Proof. intros H. cbn [rmatch]. rewrite H. reflexivity. Qed.

(** The cleanup call follows the block without the comment: with two or
    more characters of white space between the brace and the call, the
    block, the white space and the call are deleted; with fewer the rule
    does not match. *)
Theorem rule_c_with_cleanup_call_only
  (ws1 ws2 ws3 args ws4 ws5 ws s : text) :
  blank ws1 = true -> blank ws2 = true -> blank ws3 = true ->
  call_args args = true -> blank ws4 = true -> blank ws5 = true ->
  forallb is_space ws = true ->
  (2 <= length ws ->
   sub pattern3 replacement3
     (load_block ws1 ws2 ws3 args ws4 ws5 ++ ws ++ lit_cleanup ++ s) =
   sub pattern3 replacement3 s) /\
  (length ws < 2 ->
   match_at pattern3 false
     (load_block ws1 ws2 ws3 args ws4 ws5 ++ ws ++ lit_cleanup ++ s) =
   None).
Proof.
  intros H1 H2 H3 Ha H4 H5 Hws. split; intros Hlen.
  - destruct (split_last ws Hlen) as [ws' [w [-> Hne]]].
    rewrite forallb_app in Hws. apply andb_true_iff in Hws as [Hws' Hw].
    cbn [forallb] in Hw. rewrite andb_true_r in Hw.
    rewrite (app_assoc (ws' ++ [w])), (app_assoc (load_block _ _ _ _ _ _)).
    rewrite (sub_match pattern3 replacement3 _ s
               ((9, lit_cleanup) :: (8, [w]) :: (6, ws') ::
                load_block_captures ws1 ws2 ws3 ws4 ws5)).
    + reflexivity.
    + rewrite <- !app_assoc. apply load_block_not_nil.
    + rewrite <- !app_assoc. unfold match_at.
      rewrite pattern3_through_block by assumption. cbn [app].
      apply pattern3_tail_gives_back; trivial.
      apply rmatch_opt_group_lit_end_take. reflexivity.
  - unfold match_at. rewrite pattern3_through_block by assumption.
    apply pattern3_tail_too_short; trivial.
Qed.

Lemma rule_c_with_cleanup_call_only_witness :
  (2 <= length span4 ->
   sub pattern3 replacement3
     (load_block span4 span8 span8 sample_args span8 span4 ++
      span4 ++ lit_cleanup ++ sample_suf) =
   sub pattern3 replacement3 sample_suf) /\
  (length span4 < 2 ->
   match_at pattern3 false
     (load_block span4 span8 span8 sample_args span8 span4 ++
      span4 ++ lit_cleanup ++ sample_suf) =
   None).
Proof.
  apply (rule_c_with_cleanup_call_only
           span4 span8 span8 sample_args span8 span4 span4 sample_suf);
    vm_compute; reflexivity.
Defined.

(** The comment and white space follow the block, the cleanup call does
    not: the block, the comment and the white space on both sides of the
    comment are deleted. *)
Theorem rule_c_with_comment_only
  (ws1 ws2 ws3 args ws4 ws5 ws6 ws7 rest : text) :
  blank ws1 = true -> blank ws2 = true -> blank ws3 = true ->
  call_args args = true -> blank ws4 = true -> blank ws5 = true ->
  blank ws6 = true -> blank ws7 = true ->
  stops is_space rest = true -> strip_prefix lit_cleanup rest = None ->
  sub pattern3 replacement3
    (load_block ws1 ws2 ws3 args ws4 ws5 ++
     ws6 ++ lit_cleanup_comment ++ ws7 ++ rest) =
  sub pattern3 replacement3 rest.
Proof.
  intros H1 H2 H3 Ha H4 H5 H6 H7 Hrest Hl.
  rewrite (app_assoc lit_cleanup_comment), (app_assoc ws6),
    (app_assoc (load_block _ _ _ _ _ _)).
  rewrite (sub_match pattern3 replacement3 _ rest
             ((8, ws7) :: (7, lit_cleanup_comment) :: (6, ws6) ::
              load_block_captures ws1 ws2 ws3 ws4 ws5)).
  - reflexivity.
  - apply load_block_not_nil.
  - rewrite <- !app_assoc. unfold match_at.
    rewrite pattern3_through_block by assumption.
    apply blank_spec in H6 as [N6 B6]. apply blank_spec in H7 as [N7 B7].
    unfold pattern3_tail.
    apply rmatch_group_greedy; [assumption | assumption | reflexivity |].
    apply rmatch_opt_group_lit_take.
    apply rmatch_group_greedy; [assumption | assumption | assumption |].
    rewrite rmatch_opt_group_lit_end_skip by exact Hl. reflexivity.
Qed.

Lemma rule_c_with_comment_only_witness :
  sub pattern3 replacement3
    (load_block span4 span8 span8 sample_args span8 span4 ++
     span4 ++ lit_cleanup_comment ++ span4 ++ sample_rest) =
  sub pattern3 replacement3 sample_rest.
Proof.
  apply (rule_c_with_comment_only
           span4 span8 span8 sample_args span8 span4 span4 span4
           sample_rest);
    vm_compute; reflexivity.
Defined.

(** The comment follows the block but no white space follows the comment:
    the comment cannot take part in the match.  With two or more
    characters of white space before it the block and that white space are
    deleted and the comment stays. *)
Theorem rule_c_keeps_comment_without_space
  (ws1 ws2 ws3 args ws4 ws5 ws u : text) :
  blank ws1 = true -> blank ws2 = true -> blank ws3 = true ->
  call_args args = true -> blank ws4 = true -> blank ws5 = true ->
  forallb is_space ws = true -> 2 <= length ws ->
  stops is_space u = true ->
  sub pattern3 replacement3
    (load_block ws1 ws2 ws3 args ws4 ws5 ++
     ws ++ lit_cleanup_comment ++ u) =
  lit_cleanup_comment ++ sub pattern3 replacement3 u.
Proof.
  intros H1 H2 H3 Ha H4 H5 Hws Hlen Hu.
  destruct (split_last ws Hlen) as [ws' [w [-> Hne]]].
  rewrite forallb_app in Hws. apply andb_true_iff in Hws as [Hws' Hw].
  cbn [forallb] in Hw. rewrite andb_true_r in Hw.
  rewrite (app_assoc (load_block _ _ _ _ _ _)).
  rewrite (sub_match pattern3 replacement3 _ (lit_cleanup_comment ++ u)
             ((8, [w]) :: (6, ws') ::
              load_block_captures ws1 ws2 ws3 ws4 ws5)).
  - cbn [expand replacement3 flat_map app].
    apply clear_sub. apply clear_borderless. vm_compute. reflexivity.
  - apply load_block_not_nil.
  - rewrite <- !app_assoc. unfold match_at.
    rewrite pattern3_through_block by assumption. cbn [app].
    apply pattern3_tail_gives_back; trivial.
Qed.

Lemma rule_c_keeps_comment_without_space_witness :
  sub pattern3 replacement3
    (load_block span4 span8 span8 sample_args span8 span4 ++
     span4 ++ lit_cleanup_comment ++ sample_rest) =
  lit_cleanup_comment ++ sub pattern3 replacement3 sample_rest.
Proof.
  apply (rule_c_keeps_comment_without_space
           span4 span8 span8 sample_args span8 span4 span4 sample_rest);
    vm_compute; try reflexivity. lia.
Defined.

(** The argument list of the error report ends, for Rule C, at the first
    closing parenthesis after [http_response_set_error(].  When that
    parenthesis is not directly followed by a semicolon (as with a nested
    call), or comes right after the opening one (an empty argument list),
    Rule C does not match at the block. *)
Theorem rule_c_rejects_parenthesis_in_arguments
  (ws1 ws2 ws3 a1 a2 ws4 ws5 s : text) :
  blank ws1 = true -> blank ws2 = true -> blank ws3 = true ->
  forallb (is_not rparen) a1 = true -> hd rparen a2 <> semicolon ->
  match_at pattern3 false
    (load_block ws1 ws2 ws3 (a1 ++ rparen :: a2) ws4 ws5 ++ s) = None /\
  match_at pattern3 false
    (load_block ws1 ws2 ws3 [] ws4 ws5 ++ s) = None.
Proof.
  intros H1 H2 H3 Ha Hc.
  apply blank_spec in H1 as [N1 B1]. apply blank_spec in H2 as [N2 B2].
  apply blank_spec in H3 as [N3 B3].
  split.
  - unfold match_at, pattern3, load_block. rewrite <- !app_assoc.
    rewrite rmatch_lit.
    rewrite rmatch_group_lit by (trivial; discriminate).
    rewrite rmatch_group_lit by (trivial; discriminate).
    rewrite rmatch_group_lit by (trivial; discriminate).
    cbn [rmatch]. apply plus_none; [exact Ha | reflexivity |].
    intros a b _ ->. destruct b as [|w b].
    + destruct a2 as [|c a2]; [reflexivity|].
      cbn [hd] in Hc.
      cbn [app strip_prefix lit_call_end str].
      change (N_of_ascii ")") with rparen. unfold rparen.
      rewrite N.eqb_refl.
      change (N_of_ascii ";") with semicolon.
      destruct (N.eqb_spec semicolon c) as [E|]; [congruence | reflexivity].
    + rewrite forallb_app in Ha. apply andb_true_iff in Ha as [_ Ha].
      cbn [forallb] in Ha. apply andb_true_iff in Ha as [Hw _].
      cbn [app strip_prefix lit_call_end str].
      change (N_of_ascii ")") with rparen.
      unfold is_not in Hw. apply negb_true_iff in Hw.
      rewrite N.eqb_sym, Hw. reflexivity.
  - unfold match_at, pattern3, load_block. rewrite <- !app_assoc.
    rewrite rmatch_lit.
    rewrite rmatch_group_lit by (trivial; discriminate).
    rewrite rmatch_group_lit by (trivial; discriminate).
    rewrite rmatch_group_lit by (trivial; discriminate).
    reflexivity.
Qed.

Lemma rule_c_rejects_parenthesis_in_arguments_witness :
  match_at pattern3 false
    (load_block span4 span8 span8
       (nested_call_args ++ rparen :: []) span8 span4 ++ sample_suf) =
  None /\
  match_at pattern3 false
    (load_block span4 span8 span8 [] span8 span4 ++ sample_suf) = None.
Proof.
  apply (rule_c_rejects_parenthesis_in_arguments
           span4 span8 span8 nested_call_args [] span8 span4 sample_suf);
    try (vm_compute; reflexivity).
  discriminate.
Defined.

(** * The entry point on failures and on other files *)

(** The run with one argument, by what the file system allows. *)
Lemma main_one_argument prog filepath st :
  main [prog; filepath] st =
  match files st filepath with
  | None => (Raise (OSError filepath), st)
  | Some content =>
      if writable st filepath then
        (Val tt,
         State (update (files st) filepath (migrate_endpoint content))
           (writable st)
           (stdout st ++ [migrated_line filepath])
           (file_ops st ++
            [OpRead filepath;
             OpWrite filepath (migrate_endpoint content)]))
      else
        (Raise (OSError filepath),
         State (files st) (writable st) (stdout st)
           (file_ops st ++ [OpRead filepath]))
  end.
Proof.
  unfold main, bind, index, read_file, write_file, print.
  cbn [length Nat.eqb negb nth_error].
  destruct (files st filepath) as [content|]; [|reflexivity].
  cbn [writable files stdout file_ops].
  destruct (writable st filepath); [|reflexivity].
  cbn [writable files stdout file_ops]. rewrite <- app_assoc. reflexivity.
Qed.

Lemma main_other_count argv st :
  length argv <> 2 ->
  main argv st =
  match argv with
  | [] => (Raise IndexError, st)
  | prog :: _ =>
      (Exit 1,
       State (files st) (writable st) (stdout st ++ [usage_line prog])
         (file_ops st))
  end.
Proof.
  intros H. unfold main.
  destruct (Nat.eqb_spec (length argv) 2) as [E|_]; [congruence|].
  destruct argv; reflexivity.
Qed.

(** A file that cannot be opened for reading stops the run before anything
    is done; a file that can be read but not opened for writing stops it
    after the read.  In both cases an [OSError] escapes, no file content
    changes, nothing is printed and the status is 1. *)
Theorem main_io_failure (prog filepath : text) (st : state) :
  (files st filepath = None ->
   main [prog; filepath] st = (Raise (OSError filepath), st)) /\
  (forall content,
      files st filepath = Some content ->
      writable st filepath = false ->
      main [prog; filepath] st =
      (Raise (OSError filepath),
       State (files st) (writable st) (stdout st)
         (file_ops st ++ [OpRead filepath]))) /\
  ((files st filepath = None \/ writable st filepath = false) ->
   exit_status (fst (main [prog; filepath] st)) = 1 /\
   files (snd (main [prog; filepath] st)) = files st /\
   stdout (snd (main [prog; filepath] st)) = stdout st).
Proof.
  rewrite main_one_argument. repeat split.
  - intros H. rewrite H. reflexivity.
  - intros content Hf Hw. rewrite Hf, Hw. reflexivity.
  - destruct H as [H|H]; [rewrite H; reflexivity|].
    rewrite H. destruct (files st filepath); reflexivity.
  - destruct H as [H|H]; [rewrite H; reflexivity|].
    rewrite H. destruct (files st filepath); reflexivity.
  - destruct H as [H|H]; [rewrite H; reflexivity|].
    rewrite H. destruct (files st filepath); reflexivity.
Qed.

(** Whatever the arguments and the state, a run changes no file other
    than the one named by its single argument, changes no permission, and
    only adds to what was printed and to the file operations done. *)
Theorem main_touches_only_its_file (argv : list text) (st : state) :
  (forall q, nth_error argv 1 <> Some q ->
             files (snd (main argv st)) q = files st q) /\
  writable (snd (main argv st)) = writable st /\
  (exists out, stdout (snd (main argv st)) = stdout st ++ out) /\
  (exists ops, file_ops (snd (main argv st)) = file_ops st ++ ops).
Proof.
  destruct (Nat.eq_dec (length argv) 2) as [E|E].
  - destruct argv as [|prog [|filepath [|x argv]]]; try discriminate.
    rewrite main_one_argument.
    destruct (files st filepath) as [content|];
      [destruct (writable st filepath)|]; cbn [snd files writable stdout
                                                file_ops nth_error].
    + repeat split.
      * intros q Hq. apply update_other. congruence.
      * eexists. reflexivity.
      * eexists. reflexivity.
    + repeat split.
      * exists []. rewrite app_nil_r. reflexivity.
      * eexists. reflexivity.
    + repeat split.
      * exists []. rewrite app_nil_r. reflexivity.
      * exists []. rewrite app_nil_r. reflexivity.
  - rewrite (main_other_count argv st E).
    destruct argv as [|prog argv]; cbn [snd files writable stdout file_ops].
    + repeat split.
      * exists []. rewrite app_nil_r. reflexivity.
      * exists []. rewrite app_nil_r. reflexivity.
    + repeat split.
      * eexists. reflexivity.
      * exists []. rewrite app_nil_r. reflexivity.
Qed.

(** A successful run leaves a file without any destroy call on
    [registry], whatever the file held. *)
Theorem main_leaves_no_destroy_call
  (prog filepath content : text) (st : state) :
  files st filepath = Some content -> writable st filepath = true ->
  exists migrated,
    files (snd (main [prog; filepath] st)) filepath = Some migrated /\
    occurs pattern4 migrated = false.
Proof.
  intros Hf Hw. rewrite main_one_argument, Hf, Hw.
  exists (migrate_endpoint content). split.
  - cbn [snd files]. apply update_same.
  - unfold migrate_endpoint.
    apply (rule_sub_clean lit_destroy lit_unlock);
      [discriminate | | | ]; vm_compute; reflexivity.
Qed.

Lemma main_leaves_no_destroy_call_witness :
  exists migrated,
    files (snd (main [str "migrate_registry.py"; sample_path] sample_state))
      sample_path = Some migrated /\
    occurs pattern4 migrated = false.
Proof.
  apply (main_leaves_no_destroy_call (str "migrate_registry.py")
           sample_path minimal_document sample_state);
    reflexivity.
Defined.

(** On a file in which no target pattern occurs the run still succeeds
    and reports the migration, and every file reads as before: the
    no-op cannot be told from a migration. *)
Theorem main_without_patterns_keeps_files
  (prog filepath content : text) (st : state) :
  files st filepath = Some content -> writable st filepath = true ->
  no_target content = true ->
  fst (main [prog; filepath] st) = Val tt /\
  stdout (snd (main [prog; filepath] st)) =
  stdout st ++ [migrated_line filepath] /\
  forall q, files (snd (main [prog; filepath] st)) q = files st q.
Proof.
  intros Hf Hw Hn. rewrite main_one_argument, Hf, Hw.
  cbn [fst snd stdout files]. repeat split.
  intros q. rewrite (migrate_no_target content Hn).
  unfold update. destruct (text_eqb q filepath) eqn:E; [|reflexivity].
  apply text_eqb_eq in E. subst q. symmetry. exact Hf.
Qed.

Lemma main_without_patterns_keeps_files_witness :
  fst (main [str "migrate_registry.py"; sample_path] plain_state) = Val tt /\
  stdout (snd (main [str "migrate_registry.py"; sample_path] plain_state)) =
  stdout plain_state ++ [migrated_line sample_path] /\
  forall q,
    files (snd (main [str "migrate_registry.py"; sample_path] plain_state))
      q = files plain_state q.
Proof.
  apply (main_without_patterns_keeps_files (str "migrate_registry.py")
           sample_path plain_document plain_state);
    vm_compute; reflexivity.
Defined.

(** * A whole endpoint *)

Ltac clear_segment :=
  first
    [ apply clear_borderless; vm_compute; reflexivity
    | apply clear_borderless_end; vm_compute; reflexivity
    | apply (clear_class is_space); [assumption | reflexivity | discriminate]
    | apply (clear_class_end is_space);
        [assumption | reflexivity | discriminate] ].

Ltac clear_segments :=
  repeat (lazymatch goal with
          | |- clear _ (_ ++ _) _ => apply clear_app; [clear_segment|]
          end);
  clear_segment.

Lemma clear_sub_all r t s :
  clear r s [] -> match_at r false [] = None -> sub r t s = s.
Proof.
  intros Hc Hn. rewrite <- (app_nil_r s) at 1.
  rewrite (clear_sub r t s [] Hc), (sub_nil r t Hn). apply app_nil_r.
Qed.

Lemma occurs_pattern1_of_clear t :
  clear create_rule t [] -> occurs pattern1 t = false.
Proof.
  intros Hc. apply never_suffixes_occurs. intros a b E.
  apply pattern1_never. intros a' b' E'.
  destruct b' as [|c b']; [intros caps k; reflexivity|].
  rewrite <- (app_nil_r (c :: b')).
  apply (Hc (a ++ a') (c :: b')); [|discriminate].
  rewrite E, E', app_assoc. reflexivity.
Qed.

(** Rule A finds nothing after the declaration. *)
Lemma endpoint_rest_pattern1 ws0 ws1 ws2 ws3 ws4 :
  forallb is_space ws0 = true -> forallb is_space ws1 = true ->
  forallb is_space ws2 = true -> forallb is_space ws3 = true ->
  forallb is_space ws4 = true ->
  sub pattern1 replacement1
    (ws0 ++ null_check ws1 ws2 ws3 ++ ws4 ++ lit_destroy) =
  ws0 ++ null_check ws1 ws2 ws3 ++ ws4 ++ lit_destroy.
Proof.
  intros H0 H1 H2 H3 H4. apply sub_no_occurrence.
  apply occurs_pattern1_of_clear.
  unfold null_check, create_rule. rewrite <- !app_assoc. clear_segments.
Qed.

(** Rule B rewrites the null check and nothing else. *)
Lemma endpoint_pattern2 ws0 ws1 ws2 ws3 ws4 :
  forallb is_space ws0 = true -> blank ws1 = true ->
  blank ws2 = true -> blank ws3 = true ->
  forallb is_space ws4 = true ->
  sub pattern2 replacement2
    (replacement1_text ++ ws0 ++ null_check ws1 ws2 ws3 ++
     ws4 ++ lit_destroy) =
  replacement1_text ++ ws0 ++ null_check_rewritten ws1 ws1 ws1 ws3 ++
  ws4 ++ lit_destroy.
Proof.
  intros H0 H1 H2 H3 H4.
  rewrite (app_assoc replacement1_text ws0).
  rewrite clear_sub by (unfold pattern2; clear_segments).
  rewrite sub_null_check by assumption.
  rewrite (clear_sub_all pattern2 replacement2 (ws4 ++ lit_destroy));
    [| unfold pattern2; clear_segments | reflexivity].
  rewrite <- !app_assoc. reflexivity.
Qed.

(** Rule C finds nothing in the rewritten text. *)
Lemma endpoint_pattern3 ws0 ws1 ws3 ws4 :
  forallb is_space ws0 = true -> forallb is_space ws1 = true ->
  forallb is_space ws3 = true -> forallb is_space ws4 = true ->
  sub pattern3 replacement3
    (replacement1_text ++ ws0 ++ null_check_rewritten ws1 ws1 ws1 ws3 ++
     ws4 ++ lit_destroy) =
  replacement1_text ++ ws0 ++ null_check_rewritten ws1 ws1 ws1 ws3 ++
  ws4 ++ lit_destroy.
Proof.
  intros H0 H1 H3 H4. apply clear_sub_all; [|reflexivity].
  unfold null_check_rewritten, pattern3. rewrite <- !app_assoc.
  clear_segments.
Qed.

(** Rule D rewrites the destroy call at the end and nothing before it. *)
Lemma endpoint_pattern4 ws0 ws1 ws3 ws4 :
  forallb is_space ws0 = true -> forallb is_space ws1 = true ->
  forallb is_space ws3 = true -> forallb is_space ws4 = true ->
  sub pattern4 replacement4
    (replacement1_text ++ ws0 ++ null_check_rewritten ws1 ws1 ws1 ws3 ++
     ws4 ++ lit_destroy) =
  endpoint_migrated ws0 ws1 ws3 ws4.
Proof.
  intros H0 H1 H3 H4. unfold endpoint_migrated, null_check_rewritten.
  rewrite <- !app_assoc.
  repeat rewrite (app_assoc _ _ lit_destroy).
  repeat rewrite (app_assoc _ _ lit_unlock).
  rewrite clear_sub.
  - f_equal; vm_compute; reflexivity.
  - unfold pattern4. clear_segments.
Qed.

(** For every quoted argument and every layout of white space, the
    declaration, the null check and the destroy call of an endpoint are
    rewritten together: the four rules do not disturb one another's
    results. *)
Theorem migrate_endpoint_layout (arg ws0 ws1 ws2 ws3 ws4 : text) :
  arg <> [] -> forallb (is_not dq) arg = true ->
  forallb is_space ws0 = true ->
  blank ws1 = true -> blank ws2 = true -> blank ws3 = true ->
  forallb is_space ws4 = true ->
  migrate_endpoint (endpoint arg ws0 ws1 ws2 ws3 ws4) =
  endpoint_migrated ws0 ws1 ws3 ws4.
Proof.
  intros Hne Harg H0 H1 H2 H3 H4.
  unfold migrate_endpoint, endpoint.
  rewrite sub_declaration by assumption.
  rewrite endpoint_rest_pattern1 by auto using blank_forallb.
  rewrite endpoint_pattern2 by assumption.
  rewrite endpoint_pattern3 by auto using blank_forallb.
  apply endpoint_pattern4; auto using blank_forallb.
Qed.

Lemma migrate_endpoint_layout_witness :
  migrate_endpoint (endpoint (str "path") [nl] span4 span8 [nl] [nl]) =
  endpoint_migrated [nl] span4 [nl] [nl].
Proof.
  apply (migrate_endpoint_layout (str "path") [nl] span4 span8 [nl] [nl]);
    (discriminate || reflexivity).
Defined.

(** * The rules are independent of one another *)

(** Rule B rewrites a null check whether or not a declaration was
    rewritten before it: on a null check alone the unlock call is inserted
    although no lock call was. *)
Theorem null_check_rewritten_without_declaration (ws1 ws2 ws3 : text) :
  blank ws1 = true -> blank ws2 = true -> blank ws3 = true ->
  migrate_endpoint (null_check ws1 ws2 ws3) =
  null_check_rewritten ws1 ws1 ws1 ws3.
Proof.
  intros H1 H2 H3.
  pose proof (blank_forallb ws1 H1) as B1.
  pose proof (blank_forallb ws2 H2) as B2.
  pose proof (blank_forallb ws3 H3) as B3.
  unfold migrate_endpoint.
  rewrite (sub_no_occurrence pattern1 replacement1 (null_check ws1 ws2 ws3)).
  2: { apply occurs_pattern1_of_clear. unfold null_check, create_rule.
       clear_segments. }
  rewrite <- (app_nil_r (null_check ws1 ws2 ws3)).
  rewrite sub_null_check by assumption.
  rewrite (sub_nil pattern2 replacement2) by reflexivity.
  rewrite app_nil_r.
  rewrite (clear_sub_all pattern3 replacement3);
    [| unfold null_check_rewritten, pattern3; clear_segments | reflexivity].
  apply clear_sub_all; [|reflexivity].
  unfold null_check_rewritten, pattern4. clear_segments.
Qed.

Lemma null_check_rewritten_without_declaration_witness :
  migrate_endpoint (null_check span4 span8 [nl]) =
  null_check_rewritten span4 span4 span4 [nl].
Proof.
  apply (null_check_rewritten_without_declaration span4 span8 [nl]);
    reflexivity.
Defined.

(** * What a successful run implies *)

(** A run ends normally only when it was given one argument naming a
    file that could be read and written, and then that file holds the
    migrated text. *)
Theorem main_success_means_written (argv : list text) (st : state) :
  fst (main argv st) = Val tt ->
  exists prog filepath content,
    argv = [prog; filepath] /\
    files st filepath = Some content /\
    writable st filepath = true /\
    files (snd (main argv st)) filepath =
    Some (migrate_endpoint content).
Proof.
  intros H. destruct (Nat.eq_dec (length argv) 2) as [E|E].
  - destruct argv as [|prog [|filepath [|x argv]]]; try discriminate.
    rewrite main_one_argument in *.
    destruct (files st filepath) as [content|] eqn:Hf; [|discriminate].
    destruct (writable st filepath) eqn:Hw; [|discriminate].
    exists prog, filepath, content.
    split; [reflexivity|]. split; [exact Hf|]. split; [exact Hw|].
    rewrite ?Hf, ?Hw. cbn [snd files]. apply update_same.
  - rewrite (main_other_count argv st E) in H.
    destruct argv; discriminate.
Qed.

Lemma main_success_means_written_witness :
  exists prog filepath content,
    [str "migrate_registry.py"; sample_path] = [prog; filepath] /\
    files sample_state filepath = Some content /\
    writable sample_state filepath = true /\
    files (snd (main [str "migrate_registry.py"; sample_path] sample_state))
      filepath =
    Some (migrate_endpoint content).
Proof.
  apply (main_success_means_written
           [str "migrate_registry.py"; sample_path] sample_state).
  reflexivity.
Defined.

Lemma main_io_failure_witness :
  main [str "migrate_registry.py"; missing_path] sample_state =
  (Raise (OSError missing_path), sample_state) /\
  main [str "migrate_registry.py"; sample_path] read_only_state =
  (Raise (OSError sample_path),
   State (files read_only_state) (writable read_only_state)
     (stdout read_only_state)
     (file_ops read_only_state ++ [OpRead sample_path])).
Proof.
  split.
  - destruct (main_io_failure (str "migrate_registry.py") missing_path
                sample_state) as [H _].
    apply H. reflexivity.
  - destruct (main_io_failure (str "migrate_registry.py") sample_path
                read_only_state) as [_ [H _]].
    apply (H minimal_document); reflexivity.
Defined.

Lemma main_touches_only_its_file_witness :
  files (snd (main [str "migrate_registry.py"; sample_path] sample_state))
    missing_path =
  files sample_state missing_path.
Proof.
  destruct (main_touches_only_its_file
              [str "migrate_registry.py"; sample_path] sample_state)
    as [H _].
  apply H. discriminate.
Defined.
